(** * progrockdiffusion: schedules, guidance weights, gradient clamp,
      brightness correction and tile placement of [prd.py]

    The development follows [src/prd.py].  Python integers are [Z];
    Python floats are IEEE binary64 values, taken from the standard
    library's executable specification [SpecFloat] (round to nearest
    even, signed zeros, infinities, NaN); torch tensors of dtype float32
    use the same specification at precision 24.  Exceptions are values of
    an error monad.  Loops that the source bounds by a [range] are folds;
    [while] loops whose exit depends on the data take a fuel. *)

From stdpp Require Import base list strings gmap.
From Stdlib Require Import ZArith QArith Qabs Lia Floats.SpecFloat.

Local Open Scope Z_scope.

(** ** Exceptions *)

Inductive exn :=
| ZeroDivisionError
| IndexError
| OverflowError
| ValueError
| NameError
| SyntaxError
| RuntimeError (msg : string).

Inductive res (A : Type) :=
| Ok (a : A)
| Raise (e : exn).
Arguments Ok {A} a.
Arguments Raise {A} e.

#[global] Instance res_ret : MRet res := fun A a => Ok a.
#[global] Instance res_bind : MBind res := fun A B f m =>
  match m with Ok a => f a | Raise e => Raise e end.
#[global] Instance res_fmap : FMap res := fun A B f m =>
  match m with Ok a => Ok (f a) | Raise e => Raise e end.

(** ** Python numbers *)

Module Py.

(** binary64, the format of a Python [float]. *)
Definition prec : Z := 53.
Definition emax : Z := 1024.

Definition fadd := SFadd prec emax.
Definition fsub := SFsub prec emax.
Definition fmul := SFmul prec emax.
Definition fdiv := SFdiv prec emax.

Inductive num :=
| Int (n : Z)
| Float (f : spec_float).

Definition is_int (v : num) : bool :=
  match v with Int _ => true | Float _ => false end.

(** The float nearest to the quotient [n / d] of two integers, the
    value of a decimal literal such as [.05] = 5/100. *)
Definition literal (n d : Z) : spec_float :=
  fdiv (binary_normalize prec emax n 0 false)
       (binary_normalize prec emax d 0 false).

(** [float(n)]: correctly rounded, OverflowError beyond the range. *)
Definition float_of_int (n : Z) : res spec_float :=
  match binary_normalize prec emax n 0 false with
  | S754_infinity _ => Raise OverflowError
  | f => Ok f
  end.

Definition to_float (v : num) : res spec_float :=
  match v with
  | Int n => float_of_int n
  | Float f => Ok f
  end.

(** An integer as an exact, unrounded operand of a division. *)
Definition exact_int (n : Z) : spec_float :=
  match n with
  | Z0 => S754_zero false
  | Zpos p => S754_finite false p 0
  | Zneg p => S754_finite true p 0
  end.

Definition is_zero (f : spec_float) : bool :=
  match f with S754_zero _ => true | _ => false end.

Definition arith (fi : Z -> Z -> Z)
    (ff : spec_float -> spec_float -> spec_float) (a b : num) : res num :=
  match a, b with
  | Int x, Int y => Ok (Int (fi x y))
  | _, _ => fa ← to_float a; fb ← to_float b; Ok (Float (ff fa fb))
  end.

Definition add := arith Z.add fadd.
Definition sub := arith Z.sub fsub.
Definition mul := arith Z.mul fmul.

(** [a / b], true division: the quotient of two ints is rounded once
    from the exact quotient; a zero divisor raises. *)
Definition truediv (a b : num) : res num :=
  match a, b with
  | Int x, Int y =>
      if y =? 0 then Raise ZeroDivisionError
      else match fdiv (exact_int x) (exact_int y) with
           | S754_infinity _ => Raise OverflowError
           | q => Ok (Float q)
           end
  | _, _ =>
      fa ← to_float a; fb ← to_float b;
      if is_zero fb then Raise ZeroDivisionError else Ok (Float (fdiv fa fb))
  end.

(** [int(v)]: truncation toward zero. *)
Definition trunc (f : spec_float) : res Z :=
  match f with
  | S754_zero _ => Ok 0
  | S754_finite s m e => Ok (cond_Zopp s (Z.shiftl (Z.pos m) e))
  | S754_infinity _ => Raise OverflowError
  | S754_nan => Raise ValueError
  end.

Definition int (v : num) : res Z :=
  match v with
  | Int n => Ok n
  | Float f => trunc f
  end.

(** Comparisons; an int is compared with a float exactly. *)
Definition compare_int_float (x : Z) (f : spec_float) : option comparison :=
  match f with
  | S754_nan => None
  | S754_infinity s => Some (if s then Gt else Lt)
  | S754_zero _ => Some (x ?= 0)
  | S754_finite s m e =>
      let v := cond_Zopp s (Z.pos m) in
      Some (if 0 <=? e then x ?= v * 2 ^ e else x * 2 ^ (- e) ?= v)
  end.

Definition compare (a b : num) : option comparison :=
  match a, b with
  | Int x, Int y => Some (x ?= y)
  | Int x, Float g => compare_int_float x g
  | Float f, Int y => CompOpp <$> compare_int_float y f
  | Float f, Float g => SFcompare f g
  end.

Definition eqb (a b : num) : bool :=
  match compare a b with Some Eq => true | _ => false end.
Definition neb (a b : num) : bool := negb (eqb a b).
Definition ltb (a b : num) : bool :=
  match compare a b with Some Lt => true | _ => false end.
Definition gtb (a b : num) : bool :=
  match compare a b with Some Gt => true | _ => false end.
Definition geb (a b : num) : bool :=
  match compare a b with Some (Gt | Eq) => true | _ => false end.

(** [l[k]] and [l[k] = v] on a Python list: a negative index counts
    from the end, anything outside raises IndexError. *)
Definition norm_index {A} (l : list A) (k : Z) : res nat :=
  let n := Z.of_nat (length l) in
  if (0 <=? k) && (k <? n) then Ok (Z.to_nat k)
  else if (- n <=? k) && (k <? 0) then Ok (Z.to_nat (n + k))
  else Raise IndexError.

Definition getitem {A} (l : list A) (k : Z) : res A :=
  i ← norm_index l k;
  match l !! i with Some v => Ok v | None => Raise IndexError end.

Definition setitem {A} (l : list A) (k : Z) (v : A) : res (list A) :=
  i ← norm_index l k; Ok (<[i := v]> l).

End Py.

(** ** Schedule engine *)

(** [val_interpolate(x1, y1, x2, y2, x)], lines 498-504. *)
Definition val_interpolate (x1 y1 x2 y2 x : Py.num) : res Py.num :=
  t ← Py.sub x x1;
  dy ← Py.sub y2 y1;
  dx ← Py.sub x2 x1;
  slope ← Py.truediv dy dx;
  p ← Py.mul t slope;
  output ← Py.add y1 p;
  if Py.is_int y1 then Py.Int <$> Py.int output else Ok output.

(** The text [num_to_schedule] builds is a sum of terms [[v]*k]; a term
    is kept as the pair of its value and its repeat count, and
    [eval_schedule] is the list the text denotes once evaluated. *)
Definition schedule_text := list (Py.num * nat).

(** A float that is not finite prints as [inf], [-inf] or [nan]: names
    that [prd.py] does not bind, so that [eval] stops on them. *)
Definition unbound_name (v : Py.num) : bool :=
  match v with
  | Py.Float (S754_infinity _) | Py.Float S754_nan => true
  | _ => false
  end.

(** [eval] of one term [[v]*k]. *)
Definition eval_term (t : Py.num * nat) : res (list Py.num) :=
  if unbound_name (fst t) then Raise NameError
  else Ok (repeat (fst t) (snd t)).

Fixpoint eval_terms (s : schedule_text) : res (list Py.num) :=
  match s with
  | [] => Ok []
  | t :: rest =>
      l ← eval_term t;
      r ← eval_terms rest;
      Ok (l ++ r)
  end.

(** [eval(text)], lines 2246-2294: an int and a finite float print in
    full and read back as themselves. *)
Definition eval_schedule (s : schedule_text) : res (list Py.num) :=
  match s with
  | [] => Raise SyntaxError
  | _ => eval_terms s
  end.

Definition no_final : Py.num := Py.Int (-9999).

(** The body of [for i in range(1, 1000)], lines 512-514. *)
Definition num_to_schedule_step (input final : Py.num)
    (output : res schedule_text) (i : nat) : res schedule_text :=
  out ← output;
  val ← val_interpolate (Py.Int 1) input (Py.Int 1000) final (Py.Int (Z.of_nat i));
  Ok (out ++ [(val, 1%nat)]).

(** [num_to_schedule(input, final=-9999)], lines 507-518. *)
Definition num_to_schedule (input final : Py.num) : res schedule_text :=
  if Py.neb final no_final then
    fold_left (num_to_schedule_step input final) (seq 1 999)
      (Ok [(input, 1%nat)])
  else Ok [(input, 1000%nat)].


(** The body of [for i in range(1, len(schedule))], lines 748-751. *)
Definition markers_step (schedule : list Py.num)
    (st : res (list Z * Py.num)) (i : nat) : res (list Z * Py.num) :=
  '(markers, last_num) ← st;
  current_num ← Py.getitem schedule (Z.of_nat i);
  Ok (if Py.neb current_num last_num then markers ++ [Z.of_nat i] else markers,
      current_num).

(** [while i < end], lines 764-766; the loop runs for
    [i = start, ..., end - 1], [n] counts the iterations left.
    [newschedule] and [schedule] name one list object, so the reads of
    [schedule[start]] and [schedule[end]] see the writes made so far. *)
Fixpoint smooth_zone (n : nat) (start end_ i : Z) (schedule : list Py.num)
    : res (list Py.num) :=
  match n with
  | O => Ok schedule
  | S n' =>
      y1 ← Py.getitem schedule start;
      y2 ← Py.getitem schedule end_;
      v ← val_interpolate (Py.Int start) y1 (Py.Int end_) y2 (Py.Int i);
      schedule' ← Py.setitem schedule i v;
      smooth_zone n' start end_ (i + 1) schedule'
  end.

(** The zone of a marker, lines 757-762: [start] and [end] after the two
    range checks. *)
Definition zone_bounds (len zone index : Z) : res (Z * Z) :=
  half ← Py.truediv (Py.Int zone) (Py.Int 2);
  s ← Py.sub (Py.Int index) half ≫= Py.int;
  let start := if s <? 1 then 1 else s in
  half' ← Py.truediv (Py.Int zone) (Py.Int 2);
  e ← Py.add (Py.Int index) half' ≫= Py.int;
  let end_ := if e >? len then len else e in
  Ok (start, end_).

(** The body of [for index in markers], lines 756-767. *)
Definition smooth_marker (zone : Z) (st : res (list Py.num * Z)) (index : Z)
    : res (list Py.num * Z) :=
  '(schedule, lastindex) ← st;
  half ← Py.truediv (Py.Int zone) (Py.Int 2);
  if Py.geb (Py.Int (index - lastindex)) half then
    '(start, end_) ← zone_bounds (Z.of_nat (length schedule)) zone index;
    schedule' ← smooth_zone (Z.to_nat (end_ - start)) start end_ start schedule;
    Ok (schedule', index)
  else Ok (schedule, index).

(** [smooth_jazz(schedule)], lines 739-768. *)
Definition smooth_jazz (schedule : list Py.num) : res (list Py.num) :=
  zone ← Py.mul (Py.Int (Z.of_nat (length schedule))) (Py.Float (Py.literal 5 100))
         ≫= Py.int;
  last_num ← Py.getitem schedule 0;
  '(markers, _) ← fold_left (markers_step schedule)
                     (seq 1 (length schedule - 1)) (Ok ([], last_num));
  if (0 <? length markers)%nat then
    fst <$> fold_left (smooth_marker zone) markers (Ok (schedule, 0))
  else Ok schedule.


(** ** Guidance weights: the end of [do_weights], lines 1045-1050

    [clip_manager.prompt_weights] is a tensor of floats whose sums the
    source compares "up to tolerance"; its entries are taken here as the
    exact rationals the floats stand for, so that a sum is a number and
    not a rounding order.  The embedding calls of lines 1016-1044 belong
    to the CLIP models: a manager enters with the weights those calls
    left in it. *)








(** ** The guidance gradient: the end of [cond_fn], lines 1177-1188 *)

Module F32.

(** binary32, the dtype of the latent and of its gradients. *)
Definition prec : Z := 24.
Definition emax : Z := 128.

Definition fadd := SFadd prec emax.
Definition fmul := SFmul prec emax.
Definition fdiv := SFdiv prec emax.
Definition fsqrt := SFsqrt prec emax.

Definition tensor := list spec_float.

Definition zero : spec_float := S754_zero false.

(** A Python scalar handed to a float32 kernel is rounded to float32. *)
Definition of_num (v : Py.num) : spec_float :=
  match v with
  | Py.Int n => binary_normalize prec emax n 0 false
  | Py.Float (S754_finite s m e) => binary_round prec emax s m e
  | Py.Float f => f
  end.

Definition isnan (f : spec_float) : bool :=
  match f with S754_nan => true | _ => false end.

Definition isinf (f : spec_float) : bool :=
  match f with S754_infinity _ => true | _ => false end.

(** [torch.zeros_like(x)] *)
Definition zeros_like (x : tensor) : tensor := map (fun _ => zero) x.

(** [t.square().mean().sqrt()], summed from the left. *)
Definition rms (t : tensor) : spec_float :=
  let total := fold_left fadd (map (fun g => fmul g g) t) zero in
  fsqrt (fdiv total (binary_normalize prec emax (Z.of_nat (length t)) 0 false)).

(** [m.clamp(max=c)]: a NaN stays a NaN. *)
Definition clamp_max (m c : spec_float) : spec_float :=
  if isnan m then m else if SFltb c m then c else m.

End F32.

Section CondFn.

(** [torch.autograd.grad(x_in, x, v)[0]]: the product of the cotangent
    [v] with the Jacobian of the denoised preview [x_in] in the latent
    [x], computed by the diffusion model. *)
Variable vjp : F32.tensor -> F32.tensor.

(** Lines 1178-1183: the gradient and the flag [x_is_NaN]. *)
Definition guarded_grad (x x_in_grad : F32.tensor) : F32.tensor * bool :=
  if negb (existsb F32.isnan x_in_grad)
  then (map SFopp (vjp x_in_grad), false)
  else (F32.zeros_like x, true).

(** Lines 1177-1188, from the aggregated [x_in_grad] on; [clamp_max] is
    the schedule [args.clamp_max]. *)
Definition cond_fn (x x_in_grad : F32.tensor) (clamp_grad : bool)
    (clamp_max : list Py.num) (t_int : Z) : res F32.tensor :=
  let '(grad, x_is_NaN) := guarded_grad x x_in_grad in
  if clamp_grad && negb x_is_NaN then
    let magnitude := F32.rms grad in
    c ← Py.getitem clamp_max (1000 - t_int);
    let m := F32.clamp_max magnitude (F32.of_num c) in
    Ok (map (fun g => F32.fdiv (F32.fmul g m) magnitude) grad)
  else Ok grad.

End CondFn.

(** An entry that is not finite. *)
Definition non_finite (f : spec_float) : bool := F32.isnan f || F32.isinf f.


(** ** Brightness and contrast correction in [do_run], lines 1392-1422 *)

Record bc_settings := {
  steps : Z;
  adjustment_interval : Z;
  fix_brightness_contrast : bool;
  high_brightness_adjust : bool;
  high_brightness_start : Z;
  high_brightness_threshold : Py.num;
  high_brightness_adjust_amount : Py.num;
  low_brightness_adjust : bool;
  low_brightness_start : Z;
  low_brightness_threshold : Py.num;
  low_brightness_adjust_amount : Py.num;
  high_contrast_adjust : bool;
  high_contrast_start : Z;
  high_contrast_threshold : Py.num;
  high_contrast_adjust_amount : Py.num;
  low_contrast_adjust : bool;
  low_contrast_start : Z;
  low_contrast_threshold : Py.num;
  low_contrast_adjust_amount : Py.num
}.

(** [a % b] on ints: the sign of the divisor, ZeroDivisionError on 0. *)
Definition py_mod (a b : Z) : res Z :=
  if b =? 0 then Raise ZeroDivisionError else Ok (a mod b).

(** The guard of line 1395; [and] evaluates from the left and stops at
    the first false operand. *)
Definition correction_due (st : bc_settings) (s : Z) : res bool :=
  r ← py_mod s (adjustment_interval st);
  if r =? 0 then
    limit ← Py.mul (Py.Int (steps st)) (Py.Float (Py.literal 3 10));
    if Py.ltb (Py.Int s) limit then Ok (fix_brightness_contrast st)
    else Ok false
  else Ok false.

Section Correction.

(** PIL images and the latent tensor are opaque here. *)
Variables image tensor : Type.
(** [ImageEnhance.Brightness(image).enhance(amount)] *)
Variable brightness_enhance : image -> Py.num -> image.
(** [ImageEnhance.Contrast(image).enhance(amount)] *)
Variable contrast_enhance : image -> Py.num -> image.
(** [TF.to_tensor(image).to(device).unsqueeze(0).mul(2).sub(1)] *)
Variable to_init : image -> tensor.

(** Lines 1395-1422 at step [s]; the result is the value of [init]
    after the block and whether a [break] left the sampling loop. *)
Definition correct_step (st : bc_settings) (s : Z)
    (brightness contrast : Py.num) (img : image) (init : tensor)
    : res (tensor * bool) :=
  due ← correction_due st s;
  if (due : bool) then
    if high_brightness_adjust st && (s >? high_brightness_start st)
       && Py.gtb brightness (high_brightness_threshold st)
    then Ok (to_init (brightness_enhance img (high_brightness_adjust_amount st)), true)
    else if low_brightness_adjust st && (s >? low_brightness_start st)
       && Py.ltb brightness (low_brightness_threshold st)
    then Ok (to_init (brightness_enhance img (low_brightness_adjust_amount st)), true)
    else if high_contrast_adjust st && (s >? high_contrast_start st)
       && Py.gtb contrast (high_contrast_threshold st)
    then Ok (to_init (contrast_enhance img (high_contrast_adjust_amount st)), true)
    else if low_contrast_adjust st && (s >? low_contrast_start st)
       && Py.ltb contrast (low_contrast_threshold st)
    then Ok (to_init (contrast_enhance img (low_contrast_adjust_amount st)), true)
    else Ok (init, false)
  else Ok (init, false).

End Correction.

(** Settings of a run of 250 steps, for the examples. *)
Definition sample_settings : bc_settings :=
  {| steps := 250; adjustment_interval := 5; fix_brightness_contrast := true;
     high_brightness_adjust := true; high_brightness_start := 0;
     high_brightness_threshold := Py.Int 180;
     high_brightness_adjust_amount := Py.Float (Py.literal 85 100);
     low_brightness_adjust := true; low_brightness_start := 0;
     low_brightness_threshold := Py.Int 40;
     low_brightness_adjust_amount := Py.Float (Py.literal 115 100);
     high_contrast_adjust := true; high_contrast_start := 0;
     high_contrast_threshold := Py.Int 80;
     high_contrast_adjust_amount := Py.Float (Py.literal 85 100);
     low_contrast_adjust := true; low_contrast_start := 0;
     low_contrast_threshold := Py.Int 20;
     low_contrast_adjust_amount := Py.Float (Py.literal 115 100) |}.

(** ** The feathered alpha mask, lines 2615-2628 *)

(** A PIL image of mode L, by its size and its pixels. *)
Record image_L := {
  xsize : Z;
  ysize : Z;
  getpixel : Z -> Z -> Z
}.

(** [Image.new('L', (w, h), color)] *)
Definition Image_new (w h color : Z) : image_L :=
  {| xsize := w; ysize := h; getpixel := fun _ _ => color |}.

(** The ink of an 8-bit image saturates. *)
Definition clip8 (v : Z) : Z := Z.max 0 (Z.min 255 v).

(** [ImageDraw.Draw(im).rectangle(shape, fill)]: PIL orders the two
    corners and fills the box between them, both corners included. *)
Definition rectangle (im : image_L) (shape : (Z * Z) * (Z * Z)) (fill : Z)
    : image_L :=
  let '((xa, ya), (xb, yb)) := shape in
  {| xsize := xsize im;
     ysize := ysize im;
     getpixel := fun px py =>
       if (Z.min xa xb <=? px) && (px <=? Z.max xa xb)
          && (Z.min ya yb <=? py) && (py <=? Z.max ya yb)
       then clip8 fill else getpixel im px py |}.

(** [while i < overlap], lines 2622-2626, with [n] turns left. *)
Fixpoint alpha_gradient (n : nat) (side_x side_y a i : Z)
    (shape : (Z * Z) * (Z * Z)) (alpha : image_L) : image_L :=
  match n with
  | O => alpha
  | S n' =>
      let alpha := rectangle alpha shape a in
      let a := a + 4 in
      let i := i + 1 in
      let shape := ((side_x - i, side_y - i), (i, i)) in
      alpha_gradient n' side_x side_y a i shape alpha
  end.

(** Lines 2616-2626: the alpha channel of the compositing mask. *)
Definition alpha_mask (side_x side_y overlap : Z) : image_L :=
  alpha_gradient (Z.to_nat overlap) side_x side_y 0 0
    ((side_x, side_y), (0, 0)) (Image_new side_x side_y 255).

(** The ring of a pixel: its distance to the nearest edge of the box
    [0..side_x] x [0..side_y]. *)
Definition ring (side_x side_y px py : Z) : Z :=
  Z.min (Z.min px (side_x - px)) (Z.min py (side_y - py)).

(** ** Tile placement: [grid_coords] and [grid_slice], lines 2410-2481 *)

(** [int(n / 2)]: the true division by 2 is exact in binary64 for the
    sizes of an image, and [int] truncates toward zero. *)
Definition int_half (n : Z) : Z := Z.quot n 2.

Section GridCoords.

Variables target_x target_y original_x original_y overlap : Z.

Definition coord := (Z * Z)%type.

(** [while uy > 0], lines 2429, 2439 and 2450, in the column [cx]. *)
Fixpoint up_loop (fuel : nat) (cx uy : Z) (uy_list : list coord)
    : option (Z * list coord) :=
  if 0 <? uy then
    match fuel with
    | O => None
    | S fuel' =>
        let uy := uy - original_y + overlap in
        up_loop fuel' cx uy (uy_list ++ [(cx, uy)])
    end
  else Some (uy, uy_list).

(** [while (dy + original_y) <= target_y], lines 2432, 2443 and 2454. *)
Fixpoint down_loop (fuel : nat) (cx dy : Z) (dy_list : list coord)
    : option (Z * list coord) :=
  if dy + original_y <=? target_y then
    match fuel with
    | O => None
    | S fuel' =>
        let dy := dy + original_y - overlap in
        down_loop fuel' cx dy (dy_list ++ [(cx, dy)])
    end
  else Some (dy, dy_list).

(** The three lists a column loop appends to. *)
Record columns := {
  uy_list : list coord;
  dy_list : list coord;
  row_list : list coord
}.

(** [while lx > 0], lines 2435-2445; [inner] is the fuel of the two
    loops it contains. *)
Fixpoint left_loop (inner fuel : nat) (y lx : Z) (c : columns)
    : option (Z * columns) :=
  if 0 <? lx then
    match fuel with
    | O => None
    | S fuel' =>
        let lx := lx - original_x + overlap in
        let lx_list := row_list c ++ [(lx, y)] in
        u ← up_loop inner lx y (uy_list c);
        d ← down_loop inner lx y (dy_list c);
        left_loop inner fuel' y lx
          {| uy_list := snd u; dy_list := snd d; row_list := lx_list |}
    end
  else Some (lx, c).

(** [while (rx + original_x) <= target_x], lines 2446-2456. *)
Fixpoint right_loop (inner fuel : nat) (y rx : Z) (c : columns)
    : option (Z * columns) :=
  if rx + original_x <=? target_x then
    match fuel with
    | O => None
    | S fuel' =>
        let rx := rx + original_x - overlap in
        let rx_list := row_list c ++ [(rx, y)] in
        u ← up_loop inner rx y (uy_list c);
        d ← down_loop inner rx y (dy_list c);
        right_loop inner fuel' y rx
          {| uy_list := snd u; dy_list := snd d; row_list := rx_list |}
    end
  else Some (rx, c).

(** [grid_coords(target, original, overlap)]; [None] when a loop is
    still running after [fuel] turns. *)
Definition grid_coords (fuel : nat) : option (list coord) :=
  let center_x := int_half target_x in
  let center_y := int_half target_y in
  let x := center_x - int_half original_x in
  let y := center_y - int_half original_y in
  let center := [(x, y)] in
  let lx := x in
  let rx := x in
  u ← up_loop fuel lx y [];
  d ← down_loop fuel rx y [];
  l ← left_loop fuel fuel y lx
        {| uy_list := snd u; dy_list := snd d; row_list := [] |};
  r ← right_loop fuel fuel y rx
        {| uy_list := uy_list (snd l); dy_list := dy_list (snd l);
           row_list := [] |};
  let lx_list := row_list (snd l) in
  let rx_list := row_list (snd r) in
  Some (rev (dy_list (snd r)) ++ rev (uy_list (snd r)) ++ rev rx_list
        ++ rev lx_list ++ center).

End GridCoords.

(** A crop box [(left, upper, right, lower)]: PIL leaves the right and
    the lower edge out. *)
Definition box := (Z * Z * Z * Z)%type.

Definition in_box (b : box) (px py : Z) : Prop :=
  let '(x0, y0, x1, y1) := b in
  x0 <= px < x1 /\ y0 <= py < y1.

(** [grid_slice(source, overlap, og_size)], lines 2471-2481: each slice
    is the crop of [source] at its box, kept here as the box, with its
    coordinates. *)
Definition grid_slice (fuel : nat) (source_size : Z * Z) (overlap : Z)
    (og_size : Z * Z) : option (list (box * Z * Z)) :=
  let '(width, height) := og_size in
  coordinates ← grid_coords (fst source_size) (snd source_size)
                   width height overlap fuel;
  Some (map (fun c : coord =>
               let '(x, y) := c in ((x, y, x + width, y + height), x, y))
            coordinates).


(** ** Prompts by frame: [split_prompts], lines 2019-2041, and the
    choice of a frame's prompt in [do_run], lines 958-964 *)

Section SplitPrompts.

(** What a frame is prompted with: a list of prompt texts, or the dict of
    the prompts of its steps; [no_prompt] is the empty list [[]]. *)
Variable prompt : Type.
Variable no_prompt : prompt.

(** [while last_k < k: last_k += 1; prompt_series.update({last_k:
    last_prompt})], lines 2028-2030 and 2039-2041, with [n] turns left. *)
Fixpoint fill_frames (n : nat) (last_k : Z) (last_prompt : prompt)
    (prompt_series : gmap Z prompt) : Z * gmap Z prompt :=
  match n with
  | O => (last_k, prompt_series)
  | S n' =>
      let last_k := last_k + 1 in
      fill_frames n' last_k last_prompt (<[last_k := last_prompt]> prompt_series)
  end.

(** The body of [for k, v in prompts.items()], lines 2027-2036; the keys
    are ints already. *)
Definition split_prompts_step (st : Z * prompt * gmap Z prompt)
    (kv : Z * prompt) : Z * prompt * gmap Z prompt :=
  let '(last_k, last_prompt, prompt_series) := st in
  let '(k, v) := kv in
  let '(_, prompt_series) :=
    if k >? last_k
    then fill_frames (Z.to_nat (k - last_k)) last_k last_prompt prompt_series
    else (last_k, prompt_series) in
  (k, v, <[k := v]> prompt_series).

(** [split_prompts(prompts)]; [prompts] is the dict in the order of its
    items. *)
Definition split_prompts (max_frames : Z) (prompts : list (Z * prompt))
    : gmap Z prompt :=
  let '(last_k, last_prompt, prompt_series) :=
    fold_left split_prompts_step prompts (-1, no_prompt, ∅) in
  if last_k <? max_frames
  then snd (fill_frames (Z.to_nat (max_frames - last_k)) last_k last_prompt
              prompt_series)
  else prompt_series.

(** The outcome of a dict lookup. *)
Inductive keyed (A : Type) :=
| Found (a : A)
| KeyError (k : Z).

(** Lines 958-964: the prompt of the frame [frame_num]; without a series
    the frame gets [[]]. *)
Definition frame_prompt (prompts_series : option (gmap Z prompt))
    (frame_num : Z) : keyed prompt :=
  match prompts_series with
  | Some series =>
      let k := if frame_num >=? Z.of_nat (size series) then -1 else frame_num in
      match series !! k with
      | Some p => Found prompt p
      | None => KeyError prompt k
      end
  | None => Found prompt no_prompt
  end.

(** The prompt in force at frame [i]: that of the last key up to [i]. *)
Definition latest_prompt (acc : prompt) (prompts : list (Z * prompt)) (i : Z)
    : prompt :=
  fold_left (fun a kv => if fst kv <=? i then snd kv else a) prompts acc.

(** The keys come in increasing order, above [last_k]. *)
Fixpoint increasing_from (last_k : Z) (prompts : list (Z * prompt)) : Prop :=
  match prompts with
  | [] => True
  | kv :: rest => last_k < fst kv /\ increasing_from (fst kv) rest
  end.

End SplitPrompts.

(** The frames from 0 to [last_k] all have a prompt. *)
Definition frames_filled {prompt : Type} (last_k : Z)
    (series : gmap Z prompt) : Prop :=
  forall i, 0 <= i <= last_k -> is_Some (series !! i).

(** The series holds on the frames 0..[last_k] the prompts [f] and
    nothing else, and [last_prompt] is in force from [last_k] on. *)
Definition series_is {prompt : Type} (f : Z -> prompt)
    (st : Z * prompt * gmap Z prompt) : Prop :=
  let '(last_k, last_prompt, series) := st in
  -1 <= last_k /\
  (forall i, 0 <= i <= last_k -> series !! i = Some (f i)) /\
  (forall i, ~ 0 <= i <= last_k -> series !! i = None) /\
  (forall i, last_k <= i -> f i = last_prompt).

(** The last key of the prompts, -1 without any. *)
Definition last_key {prompt : Type} (prompts : list (Z * prompt)) : Z :=
  fold_left (fun _ kv => fst kv) prompts (-1).

(** [l'] has the entries of [l] but for writes at indices from 1 on. *)
Definition same_frame {A} (l l' : list A) : Prop :=
  length l' = length l /\ l' !! 0%nat = l !! 0%nat.

(** No entry differs from the one before it. *)
Definition no_change_points (schedule : list Py.num) : Prop :=
  forall (i : nat) a b,
    schedule !! i = Some a -> schedule !! S i = Some b -> Py.neb b a = false.


(** The largest integer below a float that is zero or positive. *)
Definition int_below (f : spec_float) : option Z :=
  match f with
  | S754_zero _ => Some (-1)
  | S754_finite false m e =>
      Some (if 0 <=? e then Z.pos m * 2 ^ e - 1
            else (Z.pos m - 1) / 2 ^ (- e))
  | _ => None
  end.

(** The float guard of step count [n] has the bound of 3 n / 10. *)
Definition thirty_percent_ok (n : nat) : bool :=
  match Py.mul (Py.Int (Z.of_nat n)) (Py.Float (Py.literal 3 10)) with
  | Ok (Py.Float f) =>
      match int_below f with
      | Some b => b =? (3 * Z.of_nat n - 1) / 10
      | None => false
      end
  | _ => false
  end.

(** A property for each of the three lists of a column loop. *)
Definition all_columns (Pu Pd Pr : coord -> Prop) (c : columns) : Prop :=
  Forall Pu (uy_list c) /\ Forall Pd (dy_list c) /\ Forall Pr (row_list c).

(** The three lists of a column loop hold no tile twice. *)
Definition columns_NoDup (c : columns) : Prop :=
  NoDup (uy_list c) /\ NoDup (dy_list c) /\ NoDup (row_list c).

(** The tile at [c] and the canvas have a pixel in common. *)
Definition meets_canvas (target_x target_y original_x original_y : Z)
    (c : coord) : Prop :=
  fst c < target_x /\ 0 < fst c + original_x /\
  snd c < target_y /\ 0 < snd c + original_y.

(** ** Checkpoints: lines 2133-2141 and, in [do_run], lines 1262-1267 *)

(** [my_settings.intermediate_saves]: the list of the steps to save at,
    or the number of saves to spread over the run. *)
Inductive intermediate_saves :=
| SaveAt (at_steps : list Py.num)
| SaveCount (n : Z).

(** [a // b] on ints: the floor of the quotient, ZeroDivisionError on 0. *)
Definition py_floordiv (a b : Z) : res Z :=
  if b =? 0 then Raise ZeroDivisionError else Ok (a / b).

(** Lines 2133-2141: [steps_per_checkpoint], [None] with a list. *)
Definition steps_per_checkpoint (steps skip_steps : Z)
    (saves : intermediate_saves) : res (option Z) :=
  match saves with
  | SaveCount n =>
      if negb (n =? 0) then
        q ← py_floordiv (steps - skip_steps - 1) (n + 1);
        Ok (Some (if q >? 0 then q else 1))
      else Ok (Some (steps + 10))
  | SaveAt _ => Ok None
  end.

(** Lines 1262-1267: is the step [actual_run_steps] an intermediate one?
    [at_steps] is the list [args.intermediate_saves], looked at only
    without a checkpoint distance. *)
Definition intermediate_step (per_checkpoint : option Z)
    (at_steps : list Py.num) (actual_run_steps : Z) : res bool :=
  match per_checkpoint with
  | Some spc =>
      r ← py_mod actual_run_steps spc;
      Ok ((r =? 0) && (actual_run_steps >? 0))
  | None => Ok (existsb (Py.eqb (Py.Int actual_run_steps)) at_steps)
  end.

(** ** Automatic [clamp_max], lines 539-557 *)

Definition auto_clamp_max (steps : Z) (use_secondary_model : bool)
    : res Py.num :=
  let clamp_max :=
    if steps <=? 35 then Py.literal 1 1000
    else if steps <=? 75 then Py.literal 125 10000
    else if steps <=? 150 then Py.literal 2 100
    else if steps <=? 225 then Py.literal 35 1000
    else if steps <=? 300 then Py.literal 5 100
    else if steps <=? 500 then Py.literal 75 1000
    else Py.literal 1 10 in
  if negb use_secondary_model
  then Py.mul (Py.Float clamp_max) (Py.Int 2)
  else Ok (Py.Float clamp_max).


(** The fuel that suffices: the longest of the four walks from the
    centre tile to an edge of the canvas. *)
Definition enough_fuel (target_x target_y original_x original_y : Z) : nat :=
  let x := int_half target_x - int_half original_x in
  let y := int_half target_y - int_half original_y in
  Z.to_nat (Z.max (Z.max y (target_y - (y + original_y) + 1))
                  (Z.max x (target_x - (x + original_x) + 1))).

(** [slices] are the tiles of [coords]: slice by slice, the box of the
    tile size whose upper left corner is the coordinate, with that
    coordinate. *)
Definition tiles_at (width height : Z) (coords : list coord)
    (slices : list (box * Z * Z)) : Prop :=
  Forall2 (fun c s => s = ((fst c, snd c, fst c + width, snd c + height),
                           fst c, snd c)) coords slices.

(** The pixel [(px, py)] lies in a slice that is the tile at one of the
    coordinates [coords]. *)
Definition slices_hold (width height : Z) (coords : list coord)
    (slices : list (box * Z * Z)) (px py : Z) : Prop :=
  exists x y,
    In (x, y) coords /\
    In ((x, y, x + width, y + height), x, y) slices /\
    in_box (x, y, x + width, y + height) px py.

(** * Properties *)

Ltac zbool :=
  repeat match goal with
         | |- context [?a <? ?b] => destruct (Z.ltb_spec a b)
         | |- context [?a <=? ?b] => destruct (Z.leb_spec a b)
         | |- context [?a >? ?b] => rewrite (Z.gtb_ltb a b)
         | |- context [?a >=? ?b] => rewrite (Z.geb_leb a b)
         | |- context [?a =? ?b] => destruct (Z.eqb_spec a b)
         end; simpl.


(** ** Tile placement *)

(** [int_half] is [int(n / 2)] as Python computes it, through the float
    quotient, for every size up to 4096. *)
Lemma int_half_is_int_truediv (n : Z) :
  0 <= n <= 4096 ->
  Py.truediv (Py.Int n) (Py.Int 2) ≫= Py.int = Ok (int_half n).
Proof.
  intros Hn.
  assert (Hall : forallb (fun k : nat =>
            match Py.truediv (Py.Int (Z.of_nat k)) (Py.Int 2) ≫= Py.int with
            | Ok q => q =? int_half (Z.of_nat k)
            | Raise _ => false
            end) (seq 0 (Z.to_nat 4097)) = true) by (vm_compute; reflexivity).
  rewrite forallb_forall in Hall.
  specialize (Hall (Z.to_nat n)). rewrite Z2Nat.id in Hall by lia.
  destruct (Py.truediv _ _ ≫= Py.int) as [q|e].
  - f_equal. apply Z.eqb_eq, Hall, in_seq. lia.
  - discriminate Hall. apply in_seq. lia.
Qed.

Section GridFacts.

Variables target_x target_y original_x original_y overlap : Z.







(** *** Enough fuel: every loop advances by a tile less the overlap *)

Lemma up_loop_returns fuel cx uy acc :
  overlap < original_y -> uy <= Z.of_nat fuel ->
  exists r, up_loop original_y overlap fuel cx uy acc = Some r.
Proof.
  intros Hs. revert uy acc. induction fuel as [|fuel IH]; intros uy acc Hf;
    simpl; destruct (0 <? uy) eqn:E; eauto.
  - apply Z.ltb_lt in E. lia.
  - apply Z.ltb_lt in E. apply IH. lia.
Qed.

Lemma down_loop_returns fuel cx dy acc :
  overlap < original_y -> target_y - (dy + original_y) < Z.of_nat fuel ->
  exists r, down_loop target_y original_y overlap fuel cx dy acc = Some r.
Proof.
  intros Hs. revert dy acc. induction fuel as [|fuel IH]; intros dy acc Hf;
    simpl; destruct (dy + original_y <=? target_y) eqn:E; eauto.
  - apply Z.leb_le in E. lia.
  - apply Z.leb_le in E. apply IH. lia.
Qed.

Lemma left_loop_returns inner fuel y lx c :
  overlap < original_x -> overlap < original_y ->
  y <= Z.of_nat inner -> target_y - (y + original_y) < Z.of_nat inner ->
  lx <= Z.of_nat fuel ->
  exists r, left_loop target_y original_x original_y overlap
              inner fuel y lx c = Some r.
Proof.
  intros Hx Hy Hu Hd. revert lx c.
  induction fuel as [|fuel IH]; intros lx c Hf;
    simpl; destruct (0 <? lx) eqn:E; eauto.
  - apply Z.ltb_lt in E. lia.
  - apply Z.ltb_lt in E.
    destruct (up_loop_returns inner (lx - original_x + overlap) y
                (uy_list c) Hy Hu) as (u & ->).
    destruct (down_loop_returns inner (lx - original_x + overlap) y
                (dy_list c) Hy Hd) as (d & ->).
    simpl. apply IH. lia.
Qed.

Lemma right_loop_returns inner fuel y rx c :
  overlap < original_x -> overlap < original_y ->
  y <= Z.of_nat inner -> target_y - (y + original_y) < Z.of_nat inner ->
  target_x - (rx + original_x) < Z.of_nat fuel ->
  exists r, right_loop target_x target_y original_x original_y overlap
              inner fuel y rx c = Some r.
Proof.
  intros Hx Hy Hu Hd. revert rx c.
  induction fuel as [|fuel IH]; intros rx c Hf;
    simpl; destruct (rx + original_x <=? target_x) eqn:E; eauto.
  - apply Z.leb_le in E. lia.
  - apply Z.leb_le in E.
    destruct (up_loop_returns inner (rx + original_x - overlap) y
                (uy_list c) Hy Hu) as (u & ->).
    destruct (down_loop_returns inner (rx + original_x - overlap) y
                (dy_list c) Hy Hd) as (d & ->).
    simpl. apply IH. lia.
Qed.

Lemma grid_coords_returns fuel :
  overlap < original_x -> overlap < original_y ->
  (enough_fuel target_x target_y original_x original_y <= fuel)%nat ->
  exists coords,
    grid_coords target_x target_y original_x original_y overlap fuel
      = Some coords.
Proof.
  intros Hx Hy Hf. unfold grid_coords, enough_fuel in *.
  set (x := int_half target_x - int_half original_x) in *.
  set (y := int_half target_y - int_half original_y) in *.
  assert (Hu : y <= Z.of_nat fuel) by lia.
  assert (Hd : target_y - (y + original_y) < Z.of_nat fuel) by lia.
  destruct (up_loop_returns fuel x y [] Hy Hu) as (u & ->).
  destruct (down_loop_returns fuel x y [] Hy Hd) as (d & ->). simpl.
  destruct (left_loop_returns fuel fuel y x
              {| uy_list := snd u; dy_list := snd d; row_list := [] |}
              Hx Hy Hu Hd) as (l & ->); [lia|]. simpl.
  destruct (right_loop_returns fuel fuel y x
              {| uy_list := uy_list (snd l); dy_list := dy_list (snd l);
                 row_list := [] |}
              Hx Hy Hu Hd) as (r & ->); [lia|]. simpl.
  eauto.
Qed.

(** *** No progress: with an overlap of a tile or more a loop that is
    entered is never left *)

Lemma up_loop_stuck fuel cx uy acc :
  original_y <= overlap -> 0 < uy ->
  up_loop original_y overlap fuel cx uy acc = None.
Proof.
  intros Hs. revert uy acc. induction fuel as [|fuel IH]; intros uy acc Hu;
    simpl; destruct (0 <? uy) eqn:E; try reflexivity;
    try (apply Z.ltb_ge in E; lia).
  apply IH. lia.
Qed.

Lemma down_loop_stuck fuel cx dy acc :
  original_y <= overlap -> dy + original_y <= target_y ->
  down_loop target_y original_y overlap fuel cx dy acc = None.
Proof.
  intros Hs. revert dy acc. induction fuel as [|fuel IH]; intros dy acc Hd;
    simpl; destruct (dy + original_y <=? target_y) eqn:E; try reflexivity;
    try (apply Z.leb_gt in E; lia).
  apply IH. lia.
Qed.

Lemma left_loop_stuck inner fuel y lx c :
  original_x <= overlap -> 0 < lx ->
  left_loop target_y original_x original_y overlap inner fuel y lx c = None.
Proof.
  intros Hs. revert lx c. induction fuel as [|fuel IH]; intros lx c Hl;
    simpl; destruct (0 <? lx) eqn:E; try reflexivity;
    try (apply Z.ltb_ge in E; lia).
  destruct (up_loop _ _ _ _ _ _); [|reflexivity]. simpl.
  destruct (down_loop _ _ _ _ _ _ _); [|reflexivity]. simpl.
  apply IH. lia.
Qed.

Lemma right_loop_stuck inner fuel y rx c :
  original_x <= overlap -> rx + original_x <= target_x ->
  right_loop target_x target_y original_x original_y overlap
    inner fuel y rx c = None.
Proof.
  intros Hs. revert rx c. induction fuel as [|fuel IH]; intros rx c Hr;
    simpl; destruct (rx + original_x <=? target_x) eqn:E; try reflexivity;
    try (apply Z.leb_gt in E; lia).
  destruct (up_loop _ _ _ _ _ _); [|reflexivity]. simpl.
  destruct (down_loop _ _ _ _ _ _ _); [|reflexivity]. simpl.
  apply IH. lia.
Qed.

Lemma grid_coords_stuck fuel :
  let x := int_half target_x - int_half original_x in
  let y := int_half target_y - int_half original_y in
  (original_y <= overlap /\ (0 < y \/ y + original_y <= target_y)) \/
  (original_x <= overlap /\ (0 < x \/ x + original_x <= target_x)) ->
  grid_coords target_x target_y original_x original_y overlap fuel = None.
Proof.
  intros x y H. unfold grid_coords. fold x. fold y.
  destruct (up_loop _ _ _ _ _ _) as [u|] eqn:Hu; [|reflexivity]. simpl.
  destruct (down_loop _ _ _ _ _ _ _) as [d|] eqn:Hd; [|reflexivity]. simpl.
  destruct H as [[Hs [Hy|Hy]]|[Hs Hx]].
  - rewrite up_loop_stuck in Hu by easy. discriminate.
  - rewrite down_loop_stuck in Hd by easy. discriminate.
  - destruct Hx as [Hx|Hx].
    + rewrite left_loop_stuck by easy. reflexivity.
    + destruct (left_loop _ _ _ _ _ _ _ _ _) as [l|]; [|reflexivity]. simpl.
      rewrite right_loop_stuck by easy. reflexivity.
Qed.

End GridFacts.

Lemma tiles_at_map width height coords :
  tiles_at width height coords
    (map (fun c : coord =>
            let '(x, y) := c in ((x, y, x + width, y + height), x, y))
         coords).
Proof.
  induction coords as [|[x y] coords IH]; constructor; [reflexivity | exact IH].
Qed.

(** The claim as it stands, for any overlap, fails on a negative one:
    on a canvas of 1024 by 1024 with tiles of 512 by 512 and an overlap
    of -10 the placement returns nine tiles set 10 pixels apart, and the
    pixel (250, 300) of the canvas lies in none of their boxes. *)
Lemma grid_slice_negative_overlap_gap :
  exists coords slices,
    grid_coords 1024 1024 512 512 (-10) 2 = Some coords /\
    grid_slice 2 (1024, 1024) (-10) (512, 512) = Some slices /\
    tiles_at 512 512 coords slices /\
    length slices = 9%nat /\
    (0 <= 250 < 1024 /\ 0 <= 300 < 1024) /\
    (forall b x y, In (b, x, y) slices -> ~ in_box b 250 300) /\
    ~ slices_hold 512 512 coords slices 250 300.
Proof.
  eexists _, _. split; [vm_compute; reflexivity|].
  split; [vm_compute; reflexivity|].
  split; [apply (tiles_at_map 512 512)|].
  split; [reflexivity|]. split; [lia|].
  assert (Hno : forall b x y,
            In (b, x, y)
              (map (fun c : coord =>
                      let '(x, y) := c in ((x, y, x + 512, y + 512), x, y))
                 [(778, 778); (-266, 778); (256, 778); (778, -266);
                  (-266, -266); (256, -266); (778, 256); (-266, 256);
                  (256, 256)]) -> ~ in_box b 250 300).
  { intros b x y Hin Hb. simpl in Hin.
    repeat (destruct Hin as [Hin|Hin];
            [injection Hin as <- <- <-; simpl in Hb; lia|]).
    exact Hin. }
  split; [exact Hno|].
  intros (x & y & _ & Hin & Hb). exact (Hno _ _ _ Hin Hb).
Qed.



(** C10. [grid_coords] returns for every input whose overlap is smaller
    than both sides of a tile (the sizes need not even be positive): each
    loop then moves its coordinate by a tile less the overlap, a positive
    amount, and the fuel [enough_fuel] and any larger one suffices.  With
    an overlap of a tile side or more the loops on that axis make no
    progress: once entered they are not left, whatever the fuel, and
    neither is [grid_coords] when the centre tile enters one of them. *)
Theorem grid_coords_terminates
    (target_x target_y original_x original_y overlap : Z) :
  (overlap < original_x -> overlap < original_y ->
   forall fuel,
     (enough_fuel target_x target_y original_x original_y <= fuel)%nat ->
     exists coords,
       grid_coords target_x target_y original_x original_y overlap fuel
         = Some coords) /\
  (original_y <= overlap ->
   (forall fuel cx uy acc, 0 < uy ->
      up_loop original_y overlap fuel cx uy acc = None) /\
   (forall fuel cx dy acc, dy + original_y <= target_y ->
      down_loop target_y original_y overlap fuel cx dy acc = None)) /\
  (original_x <= overlap ->
   (forall inner fuel y lx c, 0 < lx ->
      left_loop target_y original_x original_y overlap inner fuel y lx c
        = None) /\
   (forall inner fuel y rx c, rx + original_x <= target_x ->
      right_loop target_x target_y original_x original_y overlap
        inner fuel y rx c = None)) /\
  (let x := int_half target_x - int_half original_x in
   let y := int_half target_y - int_half original_y in
   (original_y <= overlap /\ (0 < y \/ y + original_y <= target_y)) \/
   (original_x <= overlap /\ (0 < x \/ x + original_x <= target_x)) ->
   forall fuel,
     grid_coords target_x target_y original_x original_y overlap fuel
       = None).
Proof.
  split; [|split; [|split]].
  - intros Hx Hy fuel Hf. now apply grid_coords_returns.
  - intros Hs. split; intros.
    + now apply up_loop_stuck.
    + now apply down_loop_stuck.
  - intros Hs. split; intros.
    + now apply left_loop_stuck.
    + now apply right_loop_stuck.
  - intros x y H fuel. now apply grid_coords_stuck.
Qed.

Lemma grid_coords_terminates_witness :
  (64 < 512 /\ 64 < 512) /\
  (exists coords, grid_coords 1024 1024 512 512 64 300 = Some coords) /\
  (512 <= 512 /\ forall fuel, grid_coords 1024 1024 512 512 512 fuel = None).
Proof.
  split; [lia|]. split.
  - apply (proj1 (grid_coords_terminates 1024 1024 512 512 64));
      [lia | lia | vm_compute; lia].
  - split; [lia|].
    apply (proj2 (proj2 (proj2 (grid_coords_terminates 1024 1024 512 512 512)))).
    vm_compute. left. split; [discriminate | left; reflexivity].
Defined.

(** ** Schedule engine *)

Lemma bind_Ok {A B} (m : res A) (f : A -> res B) b :
  m ≫= f = Ok b -> exists a, m = Ok a /\ f a = Ok b.
Proof. destruct m as [a|e]; simpl; [eauto | discriminate]. Qed.









(** C1. [num_to_schedule(5, 6)] evaluates to a thousand entries that are
    all 5: the last entry is [val_interpolate(1, 5, 1000, 6, 999)], one
    step short of [final], and [int] truncates it to 5.  On floats,
    [num_to_schedule(0.0, 1.0)] starts at 0.0 and ends at
    0.998998998998999 < 1.0.  The loop runs [i] over 1..999 while the
    interpolation reaches [final] at 1000. *)
Theorem num_to_schedule_misses_final :
  num_to_schedule (Py.Int 5) (Py.Int 6) ≫= eval_schedule
    = Ok (repeat (Py.Int 5) 1000) /\
  val_interpolate (Py.Int 1) (Py.Int 5) (Py.Int 1000) (Py.Int 6) (Py.Int 1000)
    = Ok (Py.Int 6) /\
  exists l v,
    num_to_schedule (Py.Float (Py.literal 0 1))
      (Py.Float (Py.literal 1 1)) ≫= eval_schedule = Ok l /\
    length l = 1000%nat /\
    head l = Some (Py.Float (Py.literal 0 1)) /\
    last l = Some v /\
    v = Py.Float (S754_finite false 8998183039270781 (-53)) /\
    Py.ltb v (Py.Float (Py.literal 1 1)) = true.
Proof.
  split; [vm_compute; reflexivity|]. split; [vm_compute; reflexivity|].
  eexists _, _. split; [vm_compute; reflexivity|].
  repeat split; vm_compute; reflexivity.
Qed.

(** The zone of a marker stays within [1, len]. *)
Lemma zone_bounds_in_range len zone index start end_ :
  zone_bounds len zone index = Ok (start, end_) ->
  1 <= start /\ end_ <= len.
Proof.
  unfold zone_bounds. intros H.
  apply bind_Ok in H as (half & _ & H).
  apply bind_Ok in H as (s & _ & H).
  apply bind_Ok in H as (half' & _ & H).
  apply bind_Ok in H as (e & _ & H).
  injection H as <- <-.
  destruct (s <? 1) eqn:Es; destruct (e >? len) eqn:Ee; lia.
Qed.

(** A change-point closer than half a zone to the one before it is
    passed over: the schedule is handed on as it is. *)
Lemma smooth_marker_skips_close zone schedule lastindex index half :
  Py.truediv (Py.Int zone) (Py.Int 2) = Ok half ->
  Py.geb (Py.Int (index - lastindex)) half = false ->
  smooth_marker zone (Ok (schedule, lastindex)) index = Ok (schedule, index).
Proof.
  intros Hh Hc. unfold smooth_marker. cbn [mbind res_bind].
  rewrite Hh. cbn [mbind res_bind]. now rewrite Hc.
Qed.

(** C5. A schedule of 1000 entries whose value changes at index 990:
    the zone of the change is [965, 1000], the upper bound being cut to
    [len(schedule)] and not to the last index, and the first turn of the
    re-interpolation reads [schedule[1000]], which raises IndexError.
    A change in the middle of the schedule is smoothed. *)
Theorem smooth_jazz_reads_past_the_end :
  let schedule := repeat (Py.Int 4) 990 ++ repeat (Py.Int 2) 10 in
  length schedule = 1000%nat /\
  zone_bounds 1000 50 990 = Ok (965, 1000) /\
  Py.getitem schedule 1000 = Raise IndexError /\
  smooth_jazz schedule = Raise IndexError /\
  (exists s, smooth_jazz (repeat (Py.Int 4) 500 ++ repeat (Py.Int 2) 500)
             = Ok s).
Proof.
  repeat split; try (vm_compute; reflexivity).
  eexists. vm_compute. reflexivity.
Qed.

(** ** Guidance weights *)













(** ** The guidance gradient *)

(** C3, as stated, fails: the guard of line 1178 is [torch.isnan] alone.
    With an infinite entry and no NaN in the aggregated gradient the
    computed gradient is returned, infinite entry included (here the
    Jacobian is the identity and clamping is off). *)
Lemma cond_fn_keeps_infinite_gradient :
  ~ (forall (vjp : F32.tensor -> F32.tensor) x x_in_grad clamp_grad clamp_max
            t_int,
       existsb non_finite x_in_grad = true ->
       cond_fn vjp x x_in_grad clamp_grad clamp_max t_int
         = Ok (F32.zeros_like x)).
Proof.
  intros H.
  specialize (H (fun v => v) [F32.zero; F32.zero; F32.zero]
                [F32.zero; S754_infinity false; F32.zero] false
                (repeat (Py.Float (Py.literal 5 100)) 1000) 1000
                eq_refl).
  vm_compute in H. discriminate.
Qed.

(** C3, amended. At every step whose aggregated gradient [x_in_grad]
    holds a NaN, [cond_fn] returns, in place of the computed gradient and
    without clamping it, a gradient of the shape of the latent [x] whose
    entries are all zero; the call returns normally, so the run goes on.
    (Infinite entries do not trigger the guard.) *)
Theorem cond_fn_nan_gives_zero (vjp : F32.tensor -> F32.tensor)
    (x x_in_grad : F32.tensor) (clamp_grad : bool) (clamp_max : list Py.num)
    (t_int : Z) :
  existsb F32.isnan x_in_grad = true ->
  exists grad,
    cond_fn vjp x x_in_grad clamp_grad clamp_max t_int = Ok grad /\
    grad = F32.zeros_like x /\
    length grad = length x /\
    Forall (fun g => g = F32.zero) grad.
Proof.
  intros Hnan. unfold cond_fn, guarded_grad. rewrite Hnan. simpl.
  rewrite andb_false_r. eexists. split; [reflexivity|].
  split; [reflexivity|]. unfold F32.zeros_like. split.
  - apply length_map.
  - induction x as [|a x IH]; simpl; constructor; [reflexivity | exact IH].
Qed.

Lemma cond_fn_nan_gives_zero_witness :
  exists grad,
    cond_fn (fun v => v) [F32.zero; F32.zero; F32.zero]
      [F32.zero; S754_nan; S754_infinity false] true
      (repeat (Py.Float (Py.literal 5 100)) 1000) 1000 = Ok grad /\
    grad = [F32.zero; F32.zero; F32.zero].
Proof.
  destruct (cond_fn_nan_gives_zero (fun v => v)
              [F32.zero; F32.zero; F32.zero]
              [F32.zero; S754_nan; S754_infinity false] true
              (repeat (Py.Float (Py.literal 5 100)) 1000) 1000 eq_refl)
    as (grad & H1 & H2 & _).
  exists grad. split; assumption.
Defined.

(** C6. With clamping on and a computed gradient that is zero (finite,
    no NaN), the magnitude is 0 and line 1187 divides by it: every entry
    of the returned gradient is NaN, which is no multiple of the computed
    gradient and has no magnitude below the clamp.  The backward map
    [vjp] is any that sends the zero cotangent to the zero gradient. *)
Theorem cond_fn_clamp_zero_gradient (vjp : F32.tensor -> F32.tensor)
    (x : F32.tensor) :
  let zeros := [F32.zero; F32.zero; F32.zero] in
  let clamp_max := repeat (Py.Float (Py.literal 5 100)) 1000 in
  vjp zeros = zeros ->
  existsb non_finite zeros = false /\
  fst (guarded_grad vjp x zeros) = map SFopp zeros /\
  F32.rms (map SFopp zeros) = F32.zero /\
  cond_fn vjp x zeros true clamp_max 1000
    = Ok [S754_nan; S754_nan; S754_nan].
Proof.
  intros zeros clamp_max Hv. unfold cond_fn, guarded_grad.
  subst zeros. simpl existsb. simpl negb. cbv iota. rewrite Hv.
  repeat split; vm_compute; reflexivity.
Qed.

Lemma cond_fn_clamp_zero_gradient_witness :
  cond_fn (fun v => v) [] [F32.zero; F32.zero; F32.zero] true
    (repeat (Py.Float (Py.literal 5 100)) 1000) 1000
  = Ok [S754_nan; S754_nan; S754_nan].
Proof.
  apply (cond_fn_clamp_zero_gradient (fun v => v) [] eq_refl).
Defined.

(** The clamp at work on a gradient that is not zero: (3, 4, 0) has
    magnitude 5/sqrt 3 and comes back scaled down to magnitude 0.05. *)
Example cond_fn_clamps_3_4_0 :
  cond_fn (fun v => v) []
    [F32.of_num (Py.Int 3); F32.of_num (Py.Int 4); F32.zero] true
    (repeat (Py.Float (Py.literal 5 100)) 1000) 1000
  = Ok [S754_finite true 13948317 (-28); S754_finite true 9298878 (-27);
        S754_zero true].
Proof. vm_compute. reflexivity. Qed.

(** ** Brightness and contrast correction *)

Lemma correction_due_true (st : bc_settings) (s : Z) :
  correction_due st s = Ok true ->
  fix_brightness_contrast st = true /\
  adjustment_interval st <> 0 /\
  s mod adjustment_interval st = 0 /\
  exists limit,
    Py.mul (Py.Int (steps st)) (Py.Float (Py.literal 3 10)) = Ok limit /\
    Py.ltb (Py.Int s) limit = true.
Proof.
  unfold correction_due, py_mod. intros H.
  destruct (adjustment_interval st =? 0) eqn:Ei; [discriminate|].
  apply Z.eqb_neq in Ei. simpl in H.
  destruct (s mod adjustment_interval st =? 0) eqn:Em; [|discriminate].
  apply Z.eqb_eq in Em.
  apply bind_Ok in H as (limit & Hl & H).
  destruct (Py.ltb (Py.Int s) limit) eqn:Elt; [|discriminate].
  injection H as H. eauto 10.
Qed.

(** C8. A step of the sampling loop at which the correction block
    returns either leaves [init] as it was and does not break, or it has
    corrected: then the feature is on, [s] is a multiple of the
    adjustment interval and [s < steps * .3], compared as the source
    computes it.  So no correction happens at any other step. *)
Theorem correction_only_when_due (image tensor : Type)
    (brightness_enhance contrast_enhance : image -> Py.num -> image)
    (to_init : image -> tensor)
    (st : bc_settings) (s : Z) (brightness contrast : Py.num)
    (img : image) (init : tensor) (r : tensor * bool) :
  correct_step image tensor brightness_enhance contrast_enhance to_init
    st s brightness contrast img init = Ok r ->
  r = (init, false) \/
  (snd r = true /\
   fix_brightness_contrast st = true /\
   adjustment_interval st <> 0 /\
   s mod adjustment_interval st = 0 /\
   exists limit,
     Py.mul (Py.Int (steps st)) (Py.Float (Py.literal 3 10)) = Ok limit /\
     Py.ltb (Py.Int s) limit = true).
Proof.
  unfold correct_step. intros H.
  apply bind_Ok in H as (due & Hdue & H).
  destruct due; [|left; now injection H].
  apply correction_due_true in Hdue.
  repeat match type of H with
         | (if ?b then _ else _) = _ => destruct b
         end;
    injection H as <-; (right; split; [reflexivity | exact Hdue]) || now left.
Qed.

Lemma correction_only_when_due_witness :
  correct_step Z Z (fun img _ => img + 1) (fun img _ => img) (fun img => img)
    sample_settings 70 (Py.Int 200) (Py.Int 50) 7 0 = Ok (8, true) /\
  70 mod 5 = 0.
Proof.
  split; [reflexivity|].
  destruct (correction_only_when_due Z Z (fun img _ => img + 1)
              (fun img _ => img) (fun img => img)
              sample_settings 70 (Py.Int 200) (Py.Int 50) 7 0 (8, true)
              eq_refl) as [H | (_ & _ & _ & H & _)];
    [discriminate | exact H].
Defined.

(** With 250 steps the thirty percent end at 75: step 70 is due, step 75
    is not (75 < 75.0 fails), nor is step 72. *)
Example correction_due_250 :
  correction_due sample_settings 70 = Ok true /\
  correction_due sample_settings 75 = Ok false /\
  correction_due sample_settings 72 = Ok false.
Proof. repeat split; vm_compute; reflexivity. Qed.

(** ** The feathered alpha mask *)

Lemma alpha_gradient_pixel n side_x side_y i alpha px py :
  0 <= i -> 2 * (i + Z.of_nat n - 1) <= side_x ->
  2 * (i + Z.of_nat n - 1) <= side_y ->
  getpixel (alpha_gradient n side_x side_y (4 * i) i
              ((side_x - i, side_y - i), (i, i)) alpha) px py
  = if (ring side_x side_y px py <? i) || (Z.of_nat n =? 0)
    then getpixel alpha px py
    else clip8 (4 * Z.min (ring side_x side_y px py) (i + Z.of_nat n - 1)).
Proof.
  revert i alpha. induction n as [|n IH]; intros i alpha Hi Hx Hy.
  - simpl. now rewrite orb_true_r.
  - cbn [alpha_gradient].
    replace (4 * i + 4) with (4 * (i + 1)) by lia.
    rewrite IH by lia. unfold ring. simpl getpixel.
    repeat match goal with
           | |- context [?a <? ?b] => destruct (Z.ltb_spec a b)
           | |- context [?a <=? ?b] => destruct (Z.leb_spec a b)
           | |- context [?a =? ?b] => destruct (Z.eqb_spec a b)
           end; simpl; try reflexivity; try lia; f_equal; lia.
Qed.

(** Every pixel of the mask, when the two ramps of a side do not meet. *)
Lemma alpha_mask_pixel side_x side_y overlap px py :
  0 < overlap -> 2 * (overlap - 1) <= side_x -> 2 * (overlap - 1) <= side_y ->
  0 <= ring side_x side_y px py ->
  getpixel (alpha_mask side_x side_y overlap) px py
  = clip8 (4 * Z.min (ring side_x side_y px py) (overlap - 1)).
Proof.
  intros Ho Hx Hy Hr. unfold alpha_mask.
  pose proof (alpha_gradient_pixel (Z.to_nat overlap) side_x side_y 0
                (Image_new side_x side_y 255) px py) as H.
  rewrite !Z.sub_0_r in H. change (4 * 0) with 0 in H.
  rewrite H by lia. rewrite Z2Nat.id by lia.
  destruct (Z.ltb_spec (ring side_x side_y px py) 0); [lia|].
  destruct (Z.eqb_spec overlap 0); [lia|]. simpl. f_equal.
Qed.

(** C7. The mask of a 512 x 512 tile with the overlap of 64: the alpha
    is 0 on the left and the upper border and grows by 4 a ring, but the
    centre ends at 252 and not at the opaque 255 the image was created
    with, since each rectangle is filled and the last one, of ring 63,
    paints the whole inside 4 * 63.  No overlap up to 64 gives an opaque
    pixel anywhere (32 leaves the centre at 124), and the right and the
    lower border, one ring in, are at 4. *)
Theorem alpha_mask_centre_not_opaque :
  let mask := alpha_mask 512 512 64 in
  getpixel mask 0 256 = 0 /\
  getpixel mask 1 256 = 4 /\
  getpixel mask 63 256 = 252 /\
  getpixel mask 256 256 = 252 /\
  getpixel mask 511 256 = 4 /\
  getpixel (alpha_mask 512 512 32) 256 256 = 124 /\
  (forall overlap px py,
     0 < overlap <= 64 -> 0 <= px <= 512 -> 0 <= py <= 512 ->
     getpixel (alpha_mask 512 512 overlap) px py <= 252).
Proof.
  repeat split; try (vm_compute; reflexivity).
  intros overlap px py Ho Hpx Hpy.
  rewrite alpha_mask_pixel by (unfold ring; lia).
  unfold clip8, ring. lia.
Qed.

Lemma alpha_mask_centre_not_opaque_witness :
  getpixel (alpha_mask 512 512 64) 256 256 <= 252.
Proof.
  apply (proj2 (proj2 (proj2 (proj2 (proj2 (proj2
           alpha_mask_centre_not_opaque)))))); lia.
Defined.

(** * Further properties of the code *)

(** ** Prompts by frame *)

Section SplitFacts.

Context {prompt : Type} (no_prompt : prompt).


Lemma fill_frames_spec n last_k (last_prompt : prompt) series :
  fst (fill_frames prompt n last_k last_prompt series) = last_k + Z.of_nat n /\
  forall i, snd (fill_frames prompt n last_k last_prompt series) !! i
            = if (last_k <? i) && (i <=? last_k + Z.of_nat n)
              then Some last_prompt else series !! i.
Proof.
  revert last_k series. induction n as [|n IH]; intros last_k series.
  - simpl. split; [lia|]. intros i. zbool; try reflexivity; lia.
  - cbn [fill_frames].
    destruct (IH (last_k + 1) (<[last_k + 1 := last_prompt]> series))
      as [H1 H2]. split; [lia|]. intros i. rewrite H2.
    destruct (Z.eq_dec i (last_k + 1)) as [->|Hne].
    + rewrite lookup_insert_eq. zbool; try reflexivity; lia.
    + rewrite lookup_insert_ne by lia. zbool; try reflexivity; lia.
Qed.

Lemma fill_to last_k k (last_prompt : prompt) series :
  last_k <= k ->
  let r := fill_frames prompt (Z.to_nat (k - last_k)) last_k last_prompt series in
  fst r = k /\
  (forall i, last_k < i <= k -> snd r !! i = Some last_prompt) /\
  (forall i, ~ last_k < i <= k -> snd r !! i = series !! i).
Proof.
  intros Hk r.
  destruct (fill_frames_spec (Z.to_nat (k - last_k)) last_k last_prompt series)
    as [H1 H2]. fold r in H1, H2.
  rewrite Z2Nat.id in H1, H2 by lia.
  split; [lia|]. split; intros i Hi; rewrite H2; zbool; try reflexivity; lia.
Qed.


Lemma split_step_filled st kv :
  frames_filled (fst (fst st)) (snd st) ->
  frames_filled (fst (fst (split_prompts_step prompt st kv)))
                (snd (split_prompts_step prompt st kv)).
Proof.
  destruct st as [[last_k last_prompt] series], kv as [k v]. simpl.
  intros Hinv. rewrite Z.gtb_ltb. destruct (Z.ltb_spec last_k k) as [E|E].
  - destruct (fill_to last_k k last_prompt series) as (_ & Hin & Hout); [lia|].
    destruct (fill_frames _ _ _ _ _) as [lk s']. simpl in *. intros i Hi.
    destruct (Z.eq_dec i k) as [->|Hne].
    + rewrite lookup_insert_eq. eauto.
    + rewrite lookup_insert_ne by lia.
      destruct (Z.le_gt_cases i last_k).
      * rewrite Hout by lia. apply Hinv. lia.
      * rewrite Hin by lia. eauto.
  - simpl. intros i Hi. destruct (Z.eq_dec i k) as [->|Hne].
    + rewrite lookup_insert_eq. eauto.
    + rewrite lookup_insert_ne by lia. apply Hinv. lia.
Qed.

Lemma split_fold_filled prompts st :
  frames_filled (fst (fst st)) (snd st) ->
  frames_filled (fst (fst (fold_left (split_prompts_step prompt) prompts st)))
                (snd (fold_left (split_prompts_step prompt) prompts st)).
Proof.
  revert st. induction prompts as [|kv rest IH]; intros st H; simpl.
  - exact H.
  - apply IH, split_step_filled, H.
Qed.

(** Whatever the keys and their order, every frame from 0 to
    [max_frames] has a prompt in the series of [split_prompts]. *)
Theorem split_prompts_fills_frames (max_frames : Z)
    (prompts : list (Z * prompt)) (i : Z) :
  0 <= i <= max_frames ->
  is_Some (split_prompts prompt no_prompt max_frames prompts !! i).
Proof.
  intros Hi. unfold split_prompts.
  pose proof (split_fold_filled prompts (-1, no_prompt, ∅)) as H.
  destruct (fold_left _ _ _) as [[last_k last_prompt] series]. simpl in H.
  assert (Hf : frames_filled last_k series) by (apply H; intros j Hj; lia).
  destruct (Z.ltb_spec last_k max_frames) as [E|E].
  - destruct (fill_to last_k max_frames last_prompt series)
      as (_ & Hin & Hout); [lia|].
    destruct (Z.le_gt_cases i last_k).
    + rewrite Hout by lia. apply Hf. lia.
    + rewrite Hin by lia. eauto.
  - apply Hf. lia.
Qed.


Lemma split_step_series f st kv :
  fst (fst st) < fst kv ->
  series_is f st ->
  series_is (fun i => if fst kv <=? i then snd kv else f i)
            (split_prompts_step prompt st kv).
Proof.
  destruct st as [[last_k last_prompt] series], kv as [k v]. simpl.
  intros Hk (Hlk & Hin & Hout & Hlast).
  rewrite Z.gtb_ltb. destruct (Z.ltb_spec last_k k) as [_|E]; [|lia].
  destruct (fill_to last_k k last_prompt series) as (_ & Fin & Fout); [lia|].
  destruct (fill_frames _ _ _ _ _) as [lk s']. simpl in *.
  split; [lia|]. split; [|split].
  - intros i Hi. destruct (Z.eq_dec i k) as [->|Hne].
    + rewrite lookup_insert_eq. now rewrite Z.leb_refl.
    + rewrite lookup_insert_ne by lia.
      destruct (Z.leb_spec k i); [lia|].
      destruct (Z.le_gt_cases i last_k).
      * rewrite Fout by lia. apply Hin. lia.
      * rewrite Fin by lia. f_equal. symmetry. apply Hlast. lia.
  - intros i Hi. rewrite lookup_insert_ne by lia. rewrite Fout by lia.
    apply Hout. lia.
  - intros i Hi. destruct (Z.leb_spec k i); [reflexivity | lia].
Qed.

Lemma split_fold_series prompts f st :
  increasing_from prompt (fst (fst st)) prompts ->
  series_is f st ->
  series_is (fun i => latest_prompt prompt (f i) prompts i)
            (fold_left (split_prompts_step prompt) prompts st) /\
  fst (fst st) <= fst (fst (fold_left (split_prompts_step prompt) prompts st)).
Proof.
  revert f st. induction prompts as [|kv rest IH]; intros f st Hinc Hs.
  - simpl. split; [|lia]. exact Hs.
  - destruct Hinc as [Hk Hinc]. cbn [fold_left].
    pose proof (split_step_series f st kv Hk Hs) as Hs'.
    assert (Hfst : fst (fst (split_prompts_step prompt st kv)) = fst kv).
    { destruct st as [[lk lp] sr], kv as [k v]. simpl.
      now destruct (if k >? lk then _ else _). }
    rewrite <- Hfst in Hinc.
    destruct (IH _ _ Hinc Hs') as [H1 H2]. split; [exact H1 | lia].
Qed.


Lemma split_fold_last_key prompts st :
  fst (fst (fold_left (split_prompts_step prompt) prompts st))
  = fold_left (fun _ kv => fst kv) prompts (fst (fst st)).
Proof.
  revert st. induction prompts as [|kv rest IH]; intros st; simpl.
  - reflexivity.
  - rewrite IH. f_equal. destruct st as [[lk lp] sr], kv as [k v]. simpl.
    now destruct (if k >? lk then _ else _).
Qed.

(** With keys that increase from 0 on, the series of [split_prompts]
    holds, on every frame from 0 to the larger of [max_frames] and the
    last key, the prompt of the last key up to that frame ([[]] before
    the first key), and no other frame. *)
Theorem split_prompts_latest (max_frames : Z) (prompts : list (Z * prompt))
    (i : Z) :
  increasing_from prompt (-1) prompts ->
  split_prompts prompt no_prompt max_frames prompts !! i
  = if (0 <=? i) && (i <=? Z.max max_frames (last_key prompts))
    then Some (latest_prompt prompt no_prompt prompts i)
    else None.
Proof.
  intros Hinc. unfold split_prompts, last_key.
  pose proof (split_fold_series prompts (fun _ => no_prompt)
                (-1, no_prompt, ∅) Hinc) as [Hs _].
  { simpl. split; [lia|]. split; [intros; lia|]. split; [|reflexivity].
    intros j _. apply lookup_empty. }
  pose proof (split_fold_last_key prompts (-1, no_prompt, ∅)) as Hk.
  destruct (fold_left (split_prompts_step prompt) _ _)
    as [[last_k last_prompt] series].
  simpl in Hk. rewrite <- Hk. destruct Hs as (Hlk & Hin & Hout & Hlast).
  destruct (Z.ltb_spec last_k max_frames) as [E|E].
  - destruct (fill_to last_k max_frames last_prompt series)
      as (_ & Fin & Fout); [lia|].
    rewrite Z.max_l by lia.
    destruct (Z.leb_spec 0 i), (Z.leb_spec i max_frames); simpl.
    + destruct (Z.le_gt_cases i last_k).
      * rewrite Fout by lia. apply Hin. lia.
      * rewrite Fin by lia. f_equal. symmetry. apply Hlast. lia.
    + rewrite Fout by lia. apply Hout. lia.
    + rewrite Fout by lia. apply Hout. lia.
    + rewrite Fout by lia. apply Hout. lia.
  - rewrite Z.max_r by lia.
    destruct (Z.leb_spec 0 i), (Z.leb_spec i last_k); simpl;
      (apply Hin; lia) || (apply Hout; lia).
Qed.

Lemma size_frames (series : gmap Z prompt) (m : Z) :
  -1 <= m ->
  (forall i, is_Some (series !! i) <-> 0 <= i <= m) ->
  Z.of_nat (size series) = m + 1.
Proof.
  intros Hm H.
  assert (Hd : dom series = (list_to_set (seqZ 0 (m + 1)) : gset Z)).
  { apply set_eq. intros i.
    rewrite elem_of_dom, elem_of_list_to_set, elem_of_seqZ, H. lia. }
  rewrite <- size_dom, Hd, size_list_to_set by apply NoDup_seqZ.
  rewrite length_seqZ. lia.
Qed.

(** The frame prompt of [do_run] over the series of [split_prompts],
    for keys that increase from 0 on: a frame up to the larger of
    [max_frames] and the last key gets the prompt in force at it; any
    later frame is looked up under the key -1, which the series does not
    have. *)
Theorem frame_prompt_of_split (max_frames : Z) (prompts : list (Z * prompt))
    (frame_num : Z) :
  increasing_from prompt (-1) prompts ->
  0 <= frame_num ->
  frame_prompt prompt no_prompt
    (Some (split_prompts prompt no_prompt max_frames prompts)) frame_num
  = if frame_num <=? Z.max max_frames (last_key prompts)
    then Found prompt (latest_prompt prompt no_prompt prompts frame_num)
    else KeyError prompt (-1).
Proof.
  intros Hinc Hf. unfold frame_prompt.
  set (series := split_prompts prompt no_prompt max_frames prompts).
  set (m := Z.max max_frames (last_key prompts)).
  assert (Hlook : forall i, series !! i
            = if (0 <=? i) && (i <=? m)
              then Some (latest_prompt prompt no_prompt prompts i) else None)
    by (intros i; now apply split_prompts_latest).
  assert (Hm : -1 <= m).
  { unfold m, last_key. pose proof (split_fold_series prompts
      (fun _ => no_prompt) (-1, no_prompt, ∅) Hinc) as [_ Hle].
    { simpl. split; [lia|]. split; [intros; lia|]. split; [|reflexivity].
      intros j _. apply lookup_empty. }
    rewrite split_fold_last_key in Hle. simpl in Hle. lia. }
  assert (Hsize : Z.of_nat (size series) = m + 1).
  { apply size_frames; [exact Hm|]. intros i. rewrite Hlook.
    destruct (Z.leb_spec 0 i), (Z.leb_spec i m); simpl;
      split; intros Hs; try lia; try (now eauto);
      destruct Hs as [? Hs]; discriminate. }
  rewrite Hsize, Z.geb_leb.
  destruct (Z.leb_spec (m + 1) frame_num), (Z.leb_spec frame_num m);
    try lia; rewrite Hlook.
  - reflexivity.
  - destruct (Z.leb_spec 0 frame_num), (Z.leb_spec frame_num m);
      try lia. reflexivity.
Qed.

End SplitFacts.

(** ** Schedules *)

Lemma fmap_Ok {A B} (f : A -> B) (m : res A) b :
  f <$> m = Ok b -> exists a, m = Ok a /\ f a = b.
Proof. destruct m as [a|e]; simpl; intros H; [injection H as <-; eauto | discriminate]. Qed.


Lemma norm_index_nonneg {A} (l : list A) k i :
  0 <= k -> Py.norm_index l k = Ok i -> i = Z.to_nat k /\ (i < length l)%nat.
Proof.
  unfold Py.norm_index. intros Hk.
  destruct (Z.leb_spec 0 k) as [_|?]; [|lia].
  destruct (Z.ltb_spec k (Z.of_nat (length l))) as [Hlt|_]; simpl.
  - intros E; injection E as <-. lia.
  - destruct (Z.ltb_spec k 0) as [?|_]; [lia|]. rewrite andb_false_r.
    discriminate.
Qed.

Lemma setitem_same_frame {A} (l l' : list A) k v :
  1 <= k -> Py.setitem l k v = Ok l' -> same_frame l l'.
Proof.
  unfold Py.setitem. intros Hk H.
  apply bind_Ok in H as (i & Hi & H). injection H as <-.
  apply norm_index_nonneg in Hi as [-> _]; [|lia]. split.
  - apply length_insert.
  - apply list_lookup_insert_ne. lia.
Qed.

Lemma smooth_zone_same_frame n start end_ i l l' :
  1 <= i -> smooth_zone n start end_ i l = Ok l' -> same_frame l l'.
Proof.
  revert i l. induction n as [|n IH]; intros i l Hi H; simpl in H.
  - injection H as <-. split; reflexivity.
  - apply bind_Ok in H as (y1 & _ & H). apply bind_Ok in H as (y2 & _ & H).
    apply bind_Ok in H as (v & _ & H). apply bind_Ok in H as (l1 & Hset & H).
    apply setitem_same_frame in Hset as [L1 Z1]; [|lia].
    apply IH in H as [L2 Z2]; [|lia]. split; congruence.
Qed.

Lemma smooth_marker_same_frame zone l lastindex index l' lastindex' :
  smooth_marker zone (Ok (l, lastindex)) index = Ok (l', lastindex') ->
  same_frame l l'.
Proof.
  unfold smooth_marker. cbn [mbind res_bind]. intros H.
  apply bind_Ok in H as (half & _ & H).
  destruct (Py.geb _ _).
  - apply bind_Ok in H as ([start end_] & Hz & H).
    apply bind_Ok in H as (l1 & Hs & H). injection H as <- <-.
    apply zone_bounds_in_range in Hz as [Hstart _].
    now apply smooth_zone_same_frame in Hs.
  - injection H as <- <-. split; reflexivity.
Qed.

Lemma smooth_marker_raise zone e index :
  smooth_marker zone (Raise e) index = Raise e.
Proof. reflexivity. Qed.

Lemma smooth_markers_same_frame zone markers l lastindex r :
  fold_left (smooth_marker zone) markers (Ok (l, lastindex)) = Ok r ->
  same_frame l (fst r).
Proof.
  revert l lastindex. induction markers as [|index rest IH];
    intros l lastindex H; cbn [fold_left] in H.
  - injection H as <-. split; reflexivity.
  - destruct (smooth_marker zone (Ok (l, lastindex)) index)
      as [[l1 li1]|e] eqn:E.
    + apply smooth_marker_same_frame in E as [L1 Z1].
      apply IH in H as [L2 Z2]. split; congruence.
    + exfalso. clear -H. induction rest as [|i rest IH];
        cbn [fold_left] in H; [discriminate | auto].
Qed.

(** [smooth_jazz] hands back a schedule of the length it was given,
    with its entry 0 untouched. *)
Theorem smooth_jazz_same_frame (schedule s' : list Py.num) :
  smooth_jazz schedule = Ok s' ->
  length s' = length schedule /\ s' !! 0%nat = schedule !! 0%nat.
Proof.
  unfold smooth_jazz. intros H.
  apply bind_Ok in H as (zone & _ & H).
  apply bind_Ok in H as (last_num & _ & H).
  apply bind_Ok in H as ([markers ln] & _ & H).
  destruct (0 <? length markers)%nat.
  - apply fmap_Ok in H as (r & Hr & <-).
    now apply smooth_markers_same_frame in Hr.
  - injection H as <-. split; reflexivity.
Qed.


Lemma getitem_lookup {A} (l : list A) (i : nat) v :
  l !! i = Some v -> Py.getitem l (Z.of_nat i) = Ok v.
Proof.
  intros H. pose proof (lookup_lt_Some _ _ _ H) as Hlt.
  unfold Py.getitem, Py.norm_index.
  destruct (Z.leb_spec 0 (Z.of_nat i)) as [_|?]; [|lia].
  destruct (Z.ltb_spec (Z.of_nat i) (Z.of_nat (length l))) as [_|?]; [|lia].
  simpl. rewrite Nat2Z.id, H. reflexivity.
Qed.

Lemma markers_none schedule n a x :
  no_change_points schedule ->
  schedule !! a = Some x -> (S a + n <= length schedule)%nat ->
  exists y, fold_left (markers_step schedule) (seq (S a) n) (Ok ([], x))
            = Ok ([], y).
Proof.
  intros Hno. revert a x. induction n as [|n IH]; intros a x Ha Hlen.
  - simpl. eauto.
  - cbn [seq fold_left].
    destruct (lookup_lt_is_Some_2 schedule (S a)) as [b Hb]; [lia|].
    assert (Hstep : markers_step schedule (Ok ([], x)) (S a) = Ok ([], b)).
    { unfold markers_step. cbn [mbind res_bind].
      rewrite (getitem_lookup _ _ _ Hb). cbn [mbind res_bind].
      now rewrite (Hno a x b Ha Hb). }
    rewrite Hstep. apply IH; [exact Hb | lia].
Qed.

(** A schedule without change-points comes back from [smooth_jazz] as
    it is, once its zone width [int(len(schedule) * .05)] is computed. *)
Theorem smooth_jazz_no_change_points (schedule : list Py.num) (zone : Z) :
  schedule <> [] ->
  no_change_points schedule ->
  Py.mul (Py.Int (Z.of_nat (length schedule))) (Py.Float (Py.literal 5 100))
    ≫= Py.int = Ok zone ->
  smooth_jazz schedule = Ok schedule.
Proof.
  intros Hne Hno Hzone. unfold smooth_jazz. rewrite Hzone.
  cbn [mbind res_bind].
  destruct schedule as [|x rest]; [congruence|].
  change (Py.getitem (x :: rest) 0) with (Py.getitem (x :: rest) (Z.of_nat 0)).
  rewrite (getitem_lookup (x :: rest) 0 x eq_refl). cbn [mbind res_bind].
  destruct (markers_none (x :: rest) (length (x :: rest) - 1) 0 x Hno eq_refl)
    as (y & ->); [simpl; lia|].
  reflexivity.
Qed.

Lemma smooth_jazz_no_change_points_witness :
  smooth_jazz (repeat (Py.Int 4) 1000) = Ok (repeat (Py.Int 4) 1000).
Proof.
  apply (smooth_jazz_no_change_points (repeat (Py.Int 4) 1000) 50).
  - discriminate.
  - intros i a b Ha Hb.
    apply list_elem_of_lookup_2, list_elem_of_In, repeat_spec in Ha.
    apply list_elem_of_lookup_2, list_elem_of_In, repeat_spec in Hb.
    subst. reflexivity.
  - vm_compute. reflexivity.
Defined.

(** [val_interpolate] between two points of one abscissa divides by
    zero, whatever the ordinates (ints or floats). *)
Theorem val_interpolate_same_x (x1 x : Z) (y1 y2 dy : Py.num) :
  Py.sub y2 y1 = Ok dy ->
  val_interpolate (Py.Int x1) y1 (Py.Int x1) y2 (Py.Int x)
  = Raise ZeroDivisionError.
Proof.
  intros Hdy. unfold val_interpolate.
  change (Py.sub (Py.Int x) (Py.Int x1)) with (Ok (Py.Int (x - x1))).
  cbn [mbind res_bind]. rewrite Hdy. cbn [mbind res_bind].
  change (Py.sub (Py.Int x1) (Py.Int x1)) with (Ok (Py.Int (x1 - x1))).
  cbn [mbind res_bind]. rewrite Z.sub_diag.
  destruct dy as [n|f]; reflexivity.
Qed.

Lemma val_interpolate_same_x_witness :
  val_interpolate (Py.Int 7) (Py.Int 4) (Py.Int 7) (Py.Float (Py.literal 1 2))
    (Py.Int 9) = Raise ZeroDivisionError.
Proof.
  apply (val_interpolate_same_x 7 9 (Py.Int 4) (Py.Float (Py.literal 1 2))
           (Py.Float (S754_finite true 7881299347898368 (-51)))).
  vm_compute. reflexivity.
Defined.


Lemma zone_bounds_in_range_witness :
  1 <= 1 /\ 35 <= 1000.
Proof.
  apply (zone_bounds_in_range 1000 50 10 1 35). vm_compute. reflexivity.
Defined.

(** The gradient [cond_fn] returns has the shape of the latent, on both
    branches of the NaN guard and with the clamp on or off, as long as
    the backward pass returns a gradient of that shape. *)
Theorem cond_fn_shape (vjp : F32.tensor -> F32.tensor)
    (x x_in_grad : F32.tensor) (clamp_grad : bool) (clamp_max : list Py.num)
    (t_int : Z) (grad : F32.tensor) :
  length (vjp x_in_grad) = length x ->
  cond_fn vjp x x_in_grad clamp_grad clamp_max t_int = Ok grad ->
  length grad = length x.
Proof.
  intros Hv. unfold cond_fn, guarded_grad.
  destruct (existsb F32.isnan x_in_grad); simpl negb; cbv iota.
  - rewrite andb_false_r. intros H. injection H as <-.
    unfold F32.zeros_like. apply length_map.
  - rewrite andb_true_r. destruct clamp_grad.
    + intros H. apply bind_Ok in H as (c & _ & H). injection H as <-.
      now rewrite !length_map.
    + intros H. injection H as <-. now rewrite length_map.
Qed.

Lemma cond_fn_shape_witness :
  exists grad,
    cond_fn (fun v => v) [F32.zero; F32.zero]
      [F32.of_num (Py.Int 3); F32.of_num (Py.Int 4)] true
      (repeat (Py.Float (Py.literal 5 100)) 1000) 1000 = Ok grad /\
    length grad = 2%nat.
Proof.
  eexists. split; [vm_compute; reflexivity|].
  apply (cond_fn_shape (fun v => v) [F32.zero; F32.zero]
           [F32.of_num (Py.Int 3); F32.of_num (Py.Int 4)] true
           (repeat (Py.Float (Py.literal 5 100)) 1000) 1000);
    [reflexivity | vm_compute; reflexivity].
Defined.

(** ** Weights and the correction guard *)





(** ** Brightness *)

(** An adjustment interval of 0 ends the step in ZeroDivisionError, the
    correction being on or off: the modulo is the first operand of the
    guard. *)
Theorem correct_step_zero_interval (image tensor : Type)
    (brightness_enhance contrast_enhance : image -> Py.num -> image)
    (to_init : image -> tensor)
    (st : bc_settings) (s : Z) (brightness contrast : Py.num)
    (img : image) (init : tensor) :
  adjustment_interval st = 0 ->
  correct_step image tensor brightness_enhance contrast_enhance to_init
    st s brightness contrast img init = Raise ZeroDivisionError.
Proof.
  intros H. unfold correct_step, correction_due, py_mod. rewrite H.
  reflexivity.
Qed.


Lemma ltb_int_below (s : Z) (f : spec_float) (b : Z) :
  int_below f = Some b ->
  Py.ltb (Py.Int s) (Py.Float f) = true <-> s <= b.
Proof.
  unfold Py.ltb, Py.compare, Py.compare_int_float.
  destruct f as [sg|sg| |[|] m e]; simpl; try discriminate.
  - intros H. injection H as <-. destruct (Z.compare_spec s 0); split;
      intros; try lia; try discriminate; reflexivity.
  - destruct (Z.leb_spec 0 e) as [He|He]; intros H; injection H as <-.
    + destruct (Z.compare_spec s (Z.pos m * 2 ^ e)); split;
        intros; try lia; try discriminate; reflexivity.
    + assert (Hp : 0 < 2 ^ (- e)) by (apply Z.pow_pos_nonneg; lia).
      assert (Hiff : s * 2 ^ (- e) < Z.pos m <-> s <= (Z.pos m - 1) / 2 ^ (- e)).
      { split; intros Hs.
        - apply Z.div_le_lower_bound; lia.
        - apply (Z.mul_le_mono_nonneg_r _ _ (2 ^ (- e))) in Hs; [|lia].
          pose proof (Z.mul_div_le (Z.pos m - 1) (2 ^ (- e)) Hp). lia. }
      destruct (Z.compare_spec (s * 2 ^ (- e)) (Z.pos m)); split;
        intros; try lia; try discriminate; reflexivity.
Qed.


(** Up to 1000 steps the guard [s < steps * .3], computed in floats,
    holds exactly of the steps with 10 s < 3 steps. *)
Theorem thirty_percent_exact (steps_ s : Z) :
  0 <= steps_ <= 1000 ->
  exists limit,
    Py.mul (Py.Int steps_) (Py.Float (Py.literal 3 10)) = Ok limit /\
    (Py.ltb (Py.Int s) limit = true <-> 10 * s < 3 * steps_).
Proof.
  intros Hn.
  assert (Hall : forallb thirty_percent_ok (seq 0 (Z.to_nat 1001)) = true)
    by (vm_compute; reflexivity).
  rewrite forallb_forall in Hall.
  specialize (Hall (Z.to_nat steps_)).
  unfold thirty_percent_ok in Hall. rewrite Z2Nat.id in Hall by lia.
  destruct (Py.mul _ _) as [[|f]|]; try (discriminate Hall; apply in_seq; lia).
  destruct (int_below f) as [b|] eqn:Hb;
    try (discriminate Hall; apply in_seq; lia).
  exists (Py.Float f). split; [reflexivity|].
  rewrite (ltb_int_below s f b Hb).
  assert (Hbe : b = (3 * steps_ - 1) / 10) by (apply Z.eqb_eq, Hall, in_seq; lia).
  rewrite Hbe. clear. split; intros H.
  - pose proof (Z.mul_div_le (3 * steps_ - 1) 10 ltac:(lia)). lia.
  - apply Z.div_le_lower_bound; lia.
Qed.

(** ** The alpha mask *)

(** The mask in closed form, when the ramps of two opposite sides do not
    meet: at depth [ring] from the border the alpha is 4 a ring, up to
    the ring [overlap - 1], and never above 255; it is opaque exactly
    from ring 64 on, which takes an overlap of 65 at least. *)
Theorem alpha_mask_closed_form (side_x side_y overlap px py : Z) :
  0 < overlap ->
  2 * (overlap - 1) <= side_x -> 2 * (overlap - 1) <= side_y ->
  0 <= px <= side_x -> 0 <= py <= side_y ->
  let depth := Z.min (ring side_x side_y px py) (overlap - 1) in
  getpixel (alpha_mask side_x side_y overlap) px py = Z.min 255 (4 * depth) /\
  (getpixel (alpha_mask side_x side_y overlap) px py = 255 <-> 64 <= depth).
Proof.
  intros Ho Hx Hy Hpx Hpy depth.
  rewrite alpha_mask_pixel by (unfold ring; lia).
  fold depth. unfold clip8. unfold ring in depth. lia.
Qed.

Lemma alpha_mask_closed_form_witness :
  getpixel (alpha_mask 512 512 100) 256 256 = 255 /\
  getpixel (alpha_mask 512 512 100) 10 256 = 40.
Proof.
  destruct (alpha_mask_closed_form 512 512 100 256 256) as [H1 _]; try lia.
  destruct (alpha_mask_closed_form 512 512 100 10 256) as [H2 _]; try lia.
  split; [exact H1 | exact H2].
Defined.

(** Without an overlap the loop does not run and the mask stays opaque
    everywhere. *)
Theorem alpha_mask_no_overlap (side_x side_y overlap px py : Z) :
  overlap <= 0 ->
  getpixel (alpha_mask side_x side_y overlap) px py = 255.
Proof.
  intros Ho. unfold alpha_mask.
  replace (Z.to_nat overlap) with 0%nat by lia. reflexivity.
Qed.

Lemma alpha_mask_no_overlap_witness :
  getpixel (alpha_mask 512 512 0) 0 0 = 255.
Proof. apply alpha_mask_no_overlap. lia. Defined.

(** ** Tiles *)

Section GridTiles.

Variables target_x target_y original_x original_y overlap : Z.
Hypothesis Hox : overlap < original_x.
Hypothesis Hoy : overlap < original_y.

(** Where a loop may put a tile: within a column, above or below a row. *)
Lemma up_loop_inv (P : coord -> Prop) fuel cx uy acc r :
  (forall v, v < uy -> 0 < v + original_y - overlap -> P (cx, v)) ->
  Forall P acc ->
  up_loop original_y overlap fuel cx uy acc = Some r ->
  Forall P (snd r).
Proof.
  revert uy acc. induction fuel as [|fuel IH]; intros uy acc HP Hacc; simpl;
    destruct (Z.ltb_spec 0 uy) as [E|E]; intros H; try discriminate;
    try (injection H as <-; exact Hacc).
  apply IH in H; [exact H | |].
  - intros v Hv Hv'. apply HP; lia.
  - apply Forall_app. split; [exact Hacc|].
    constructor; [|constructor]. apply HP; lia.
Qed.

Lemma down_loop_inv (P : coord -> Prop) fuel cx dy acc r :
  (forall v, dy < v -> v + overlap <= target_y -> P (cx, v)) ->
  Forall P acc ->
  down_loop target_y original_y overlap fuel cx dy acc = Some r ->
  Forall P (snd r).
Proof.
  revert dy acc. induction fuel as [|fuel IH]; intros dy acc HP Hacc; simpl;
    destruct (Z.leb_spec (dy + original_y) target_y) as [E|E]; intros H;
    try discriminate; try (injection H as <-; exact Hacc).
  apply IH in H; [exact H | |].
  - intros v Hv Hv'. apply HP; lia.
  - apply Forall_app. split; [exact Hacc|].
    constructor; [|constructor]. apply HP; lia.
Qed.

Lemma left_loop_inv (Pu Pd Pr : coord -> Prop) inner fuel y lx c r :
  (forall cx v, cx < lx -> 0 < cx + original_x - overlap ->
     v < y -> 0 < v + original_y - overlap -> Pu (cx, v)) ->
  (forall cx v, cx < lx -> 0 < cx + original_x - overlap ->
     y < v -> v + overlap <= target_y -> Pd (cx, v)) ->
  (forall cx, cx < lx -> 0 < cx + original_x - overlap -> Pr (cx, y)) ->
  all_columns Pu Pd Pr c ->
  left_loop target_y original_x original_y overlap inner fuel y lx c = Some r ->
  all_columns Pu Pd Pr (snd r).
Proof.
  revert lx c. induction fuel as [|fuel IH]; intros lx c HPu HPd HPr Hc; simpl;
    destruct (Z.ltb_spec 0 lx) as [E|E]; intros H; try discriminate;
    try (injection H as <-; exact Hc).
  destruct Hc as (Hu & Hd & Hr).
  destruct (up_loop _ _ _ _ _ _) as [u|] eqn:Eu; [|discriminate]. simpl in H.
  destruct (down_loop _ _ _ _ _ _ _) as [d|] eqn:Ed; [|discriminate].
  simpl in H.
  apply IH in H; [exact H | | | |].
  - intros cx v Hcx Hcx'. apply HPu; lia.
  - intros cx v Hcx Hcx'. apply HPd; lia.
  - intros cx Hcx Hcx'. apply HPr; lia.
  - split; [|split]; simpl.
    + eapply up_loop_inv; [|exact Hu|exact Eu].
      intros v Hv Hv'. apply HPu; lia.
    + eapply down_loop_inv; [|exact Hd|exact Ed].
      intros v Hv Hv'. apply HPd; lia.
    + apply Forall_app. split; [exact Hr|].
      constructor; [|constructor]. apply HPr; lia.
Qed.

Lemma right_loop_inv (Pu Pd Pr : coord -> Prop) inner fuel y rx c r :
  (forall cx v, rx < cx -> cx + overlap <= target_x ->
     v < y -> 0 < v + original_y - overlap -> Pu (cx, v)) ->
  (forall cx v, rx < cx -> cx + overlap <= target_x ->
     y < v -> v + overlap <= target_y -> Pd (cx, v)) ->
  (forall cx, rx < cx -> cx + overlap <= target_x -> Pr (cx, y)) ->
  all_columns Pu Pd Pr c ->
  right_loop target_x target_y original_x original_y overlap
    inner fuel y rx c = Some r ->
  all_columns Pu Pd Pr (snd r).
Proof.
  revert rx c. induction fuel as [|fuel IH]; intros rx c HPu HPd HPr Hc; simpl;
    destruct (Z.leb_spec (rx + original_x) target_x) as [E|E]; intros H;
    try discriminate; try (injection H as <-; exact Hc).
  destruct Hc as (Hu & Hd & Hr).
  destruct (up_loop _ _ _ _ _ _) as [u|] eqn:Eu; [|discriminate]. simpl in H.
  destruct (down_loop _ _ _ _ _ _ _) as [d|] eqn:Ed; [|discriminate].
  simpl in H.
  apply IH in H; [exact H | | | |].
  - intros cx v Hcx Hcx'. apply HPu; lia.
  - intros cx v Hcx Hcx'. apply HPd; lia.
  - intros cx Hcx Hcx'. apply HPr; lia.
  - split; [|split]; simpl.
    + eapply up_loop_inv; [|exact Hu|exact Eu].
      intros v Hv Hv'. apply HPu; lia.
    + eapply down_loop_inv; [|exact Hd|exact Ed].
      intros v Hv Hv'. apply HPd; lia.
    + apply Forall_app. split; [exact Hr|].
      constructor; [|constructor]. apply HPr; lia.
Qed.

Lemma NoDup_snoc (l : list coord) (c : coord) :
  NoDup l -> Forall (fun c' => c' <> c) l -> NoDup (l ++ [c]).
Proof.
  intros Hl Hc. apply NoDup_app. split; [exact Hl|]. split.
  - intros c' Hin Hin'. apply list_elem_of_singleton in Hin'. subst c'.
    rewrite Forall_forall in Hc. now apply (Hc c).
  - apply NoDup_singleton.
Qed.

Lemma up_loop_NoDup fuel cx uy acc r :
  NoDup acc -> Forall (fun c => fst c <> cx \/ uy <= snd c) acc ->
  up_loop original_y overlap fuel cx uy acc = Some r ->
  NoDup (snd r).
Proof.
  revert uy acc. induction fuel as [|fuel IH]; intros uy acc Hn Hacc; simpl;
    destruct (Z.ltb_spec 0 uy) as [E|E]; intros H; try discriminate;
    try (injection H as <-; exact Hn).
  apply IH in H; [exact H | |].
  - apply NoDup_snoc; [exact Hn|].
    eapply Forall_impl; [exact Hacc|]. intros [a b]; simpl.
    intros Hab Heq. injection Heq as -> ->. lia.
  - apply Forall_app. split.
    + eapply Forall_impl; [exact Hacc|]. simpl. intros; lia.
    + constructor; [simpl; lia | constructor].
Qed.

Lemma down_loop_NoDup fuel cx dy acc r :
  NoDup acc -> Forall (fun c => fst c <> cx \/ snd c <= dy) acc ->
  down_loop target_y original_y overlap fuel cx dy acc = Some r ->
  NoDup (snd r).
Proof.
  revert dy acc. induction fuel as [|fuel IH]; intros dy acc Hn Hacc; simpl;
    destruct (Z.leb_spec (dy + original_y) target_y) as [E|E]; intros H;
    try discriminate; try (injection H as <-; exact Hn).
  apply IH in H; [exact H | |].
  - apply NoDup_snoc; [exact Hn|].
    eapply Forall_impl; [exact Hacc|]. intros [a b]; simpl.
    intros Hab Heq. injection Heq as -> ->. lia.
  - apply Forall_app. split.
    + eapply Forall_impl; [exact Hacc|]. simpl. intros; lia.
    + constructor; [simpl; lia | constructor].
Qed.

Lemma left_loop_NoDup inner fuel y lx c r :
  columns_NoDup c ->
  all_columns (fun c => lx <= fst c) (fun c => lx <= fst c)
              (fun c => lx <= fst c) c ->
  left_loop target_y original_x original_y overlap inner fuel y lx c = Some r ->
  columns_NoDup (snd r).
Proof.
  revert lx c. induction fuel as [|fuel IH]; intros lx c Hn Hc; simpl;
    destruct (Z.ltb_spec 0 lx) as [E|E]; intros H; try discriminate;
    try (injection H as <-; exact Hn).
  destruct Hn as (Nu & Nd & Nr). destruct Hc as (Hu & Hd & Hr).
  destruct (up_loop _ _ _ _ _ _) as [u|] eqn:Eu; [|discriminate]. simpl in H.
  destruct (down_loop _ _ _ _ _ _ _) as [d|] eqn:Ed; [|discriminate].
  simpl in H.
  set (lx' := lx - original_x + overlap) in *.
  apply IH in H; [exact H | |].
  - split; [|split]; simpl.
    + eapply up_loop_NoDup; [exact Nu | | exact Eu].
      eapply Forall_impl; [exact Hu|]. simpl. intros; lia.
    + eapply down_loop_NoDup; [exact Nd | | exact Ed].
      eapply Forall_impl; [exact Hd|]. simpl. intros; lia.
    + apply NoDup_snoc; [exact Nr|].
      eapply Forall_impl; [exact Hr|]. intros [a b]; simpl.
      intros Hab Heq. injection Heq as -> ->. lia.
  - split; [|split]; simpl.
    + eapply (up_loop_inv (fun c => lx' <= fst c)); [| |exact Eu].
      * simpl. intros; lia.
      * eapply Forall_impl; [exact Hu|]. simpl. intros; lia.
    + eapply (down_loop_inv (fun c => lx' <= fst c)); [| |exact Ed].
      * simpl. intros; lia.
      * eapply Forall_impl; [exact Hd|]. simpl. intros; lia.
    + apply Forall_app. split.
      * eapply Forall_impl; [exact Hr|]. simpl. intros; lia.
      * constructor; [simpl; lia | constructor].
Qed.

Lemma right_loop_NoDup inner fuel y rx c r :
  columns_NoDup c ->
  all_columns (fun c => fst c <= rx) (fun c => fst c <= rx)
              (fun c => fst c <= rx) c ->
  right_loop target_x target_y original_x original_y overlap
    inner fuel y rx c = Some r ->
  columns_NoDup (snd r).
Proof.
  revert rx c. induction fuel as [|fuel IH]; intros rx c Hn Hc; simpl;
    destruct (Z.leb_spec (rx + original_x) target_x) as [E|E]; intros H;
    try discriminate; try (injection H as <-; exact Hn).
  destruct Hn as (Nu & Nd & Nr). destruct Hc as (Hu & Hd & Hr).
  destruct (up_loop _ _ _ _ _ _) as [u|] eqn:Eu; [|discriminate]. simpl in H.
  destruct (down_loop _ _ _ _ _ _ _) as [d|] eqn:Ed; [|discriminate].
  simpl in H.
  set (rx' := rx + original_x - overlap) in *.
  apply IH in H; [exact H | |].
  - split; [|split]; simpl.
    + eapply up_loop_NoDup; [exact Nu | | exact Eu].
      eapply Forall_impl; [exact Hu|]. simpl. intros; lia.
    + eapply down_loop_NoDup; [exact Nd | | exact Ed].
      eapply Forall_impl; [exact Hd|]. simpl. intros; lia.
    + apply NoDup_snoc; [exact Nr|].
      eapply Forall_impl; [exact Hr|]. intros [a b]; simpl.
      intros Hab Heq. injection Heq as -> ->. lia.
  - split; [|split]; simpl.
    + eapply (up_loop_inv (fun c => fst c <= rx')); [| |exact Eu].
      * simpl. intros; lia.
      * eapply Forall_impl; [exact Hu|]. simpl. intros; lia.
    + eapply (down_loop_inv (fun c => fst c <= rx')); [| |exact Ed].
      * simpl. intros; lia.
      * eapply Forall_impl; [exact Hd|]. simpl. intros; lia.
    + apply Forall_app. split.
      * eapply Forall_impl; [exact Hr|]. simpl. intros; lia.
      * constructor; [simpl; lia | constructor].
Qed.

(** The lists [grid_coords] puts together: the tiles below the centre
    row, those above it, those right and those left of the centre tile
    [(x, y)] in its row, each within one step of the canvas. *)
Lemma grid_coords_lists fuel coords :
  let x := int_half target_x - int_half original_x in
  let y := int_half target_y - int_half original_y in
  let column cx :=
    (cx < x /\ 0 < cx + original_x - overlap) \/ cx = x \/
    (x < cx /\ cx + overlap <= target_x) in
  grid_coords target_x target_y original_x original_y overlap fuel
    = Some coords ->
  exists dys uys rxs lxs,
    coords = rev dys ++ rev uys ++ rev rxs ++ rev lxs ++ [(x, y)] /\
    Forall (fun c => column (fst c) /\ y < snd c /\ snd c + overlap <= target_y)
      dys /\
    Forall (fun c => column (fst c) /\ snd c < y /\
                     0 < snd c + original_y - overlap) uys /\
    Forall (fun c => x < fst c /\ fst c + overlap <= target_x /\ snd c = y)
      rxs /\
    Forall (fun c => fst c < x /\ 0 < fst c + original_x - overlap /\
                     snd c = y) lxs /\
    NoDup dys /\ NoDup uys /\ NoDup rxs /\ NoDup lxs.
Proof.
  intros x y column H. unfold grid_coords in H. fold x in H. fold y in H.
  destruct (up_loop _ _ _ _ _ _) as [u|] eqn:Eu; [|discriminate]. simpl in H.
  destruct (down_loop _ _ _ _ _ _ _) as [d|] eqn:Ed; [|discriminate].
  simpl in H.
  destruct (left_loop _ _ _ _ _ _ _ _ _) as [l|] eqn:El; [|discriminate].
  simpl in H.
  destruct (right_loop _ _ _ _ _ _ _ _ _ _) as [r|] eqn:Er; [|discriminate].
  simpl in H. injection H as <-.
  set (Pd := fun c : coord =>
               column (fst c) /\ y < snd c /\ snd c + overlap <= target_y).
  set (Pu := fun c : coord =>
               column (fst c) /\ snd c < y /\
               0 < snd c + original_y - overlap).
  set (left_of := fun c : coord => fst c <= x).
  pose proof (up_loop_NoDup _ _ _ _ _ (NoDup_nil_2 : NoDup [])
                (Forall_nil_2 _) Eu) as Nu.
  pose proof (down_loop_NoDup _ _ _ _ _ (NoDup_nil_2 : NoDup [])
                (Forall_nil_2 _) Ed) as Nd.
  assert (Au : Forall (fun c => fst c = x) (snd u)).
  { eapply (up_loop_inv (fun c => fst c = x)); [| |exact Eu];
      [reflexivity | constructor]. }
  assert (Ad : Forall (fun c => fst c = x) (snd d)).
  { eapply (down_loop_inv (fun c => fst c = x)); [| |exact Ed];
      [reflexivity | constructor]. }
  assert (Bu : Forall left_of (snd u))
    by (eapply Forall_impl; [exact Au|]; unfold left_of; simpl; intros; lia).
  assert (Bd : Forall left_of (snd d))
    by (eapply Forall_impl; [exact Ad|]; unfold left_of; simpl; intros; lia).
  apply (up_loop_inv Pu) in Eu;
    [| unfold Pu, column; simpl; intros; lia | constructor].
  apply (down_loop_inv Pd) in Ed;
    [| unfold Pd, column; simpl; intros; lia | constructor].
  assert (Nl : columns_NoDup (snd l)).
  { eapply left_loop_NoDup; [| |exact El].
    - split; [exact Nu | split; [exact Nd | constructor]].
    - split; [|split]; simpl.
      + eapply Forall_impl; [exact Au|]. simpl. intros; lia.
      + eapply Forall_impl; [exact Ad|]. simpl. intros; lia.
      + constructor. }
  assert (Bl : all_columns left_of left_of left_of (snd l)).
  { eapply (left_loop_inv left_of left_of left_of); [| | | |exact El];
      try (unfold left_of; simpl; intros; lia).
    split; [exact Bu | split; [exact Bd | constructor]]. }
  destruct Bl as (Blu & Bld & _).
  apply (left_loop_inv Pu Pd
           (fun c => fst c < x /\ 0 < fst c + original_x - overlap /\
                     snd c = y)) in El as (Lu & Ld & Lr);
    [| unfold Pu, column; simpl; intros; lia
     | unfold Pd, column; simpl; intros; lia
     | simpl; intros; lia
     | split; [exact Eu | split; [exact Ed | constructor]]].
  assert (Nr : columns_NoDup (snd r)).
  { eapply right_loop_NoDup; [| |exact Er].
    - destruct Nl as (? & ? & ?). split; [|split]; simpl;
        [assumption | assumption | constructor].
    - split; [|split]; simpl; [exact Blu | exact Bld | constructor]. }
  apply (right_loop_inv Pu Pd
           (fun c => x < fst c /\ fst c + overlap <= target_x /\
                     snd c = y)) in Er as (Ru & Rd & Rr);
    [| unfold Pu, column; simpl; intros; lia
     | unfold Pd, column; simpl; intros; lia
     | simpl; intros; lia
     | split; [exact Lu | split; [exact Ld | constructor]]].
  exists (dy_list r.2), (uy_list r.2), (row_list r.2), (row_list l.2).
  destruct Nl as (_ & _ & Nlr). destruct Nr as (Nru & Nrd & Nrr).
  split; [reflexivity|]. repeat split; assumption.
Qed.

End GridTiles.

(** With a positive overlap no tile of [grid_coords] is wasted: each one
    holds at least one pixel of the canvas. *)
Theorem grid_coords_tiles_meet_canvas
    (target_x target_y original_x original_y overlap : Z) fuel coords :
  0 < target_x -> 0 < target_y ->
  0 < overlap -> overlap < original_x -> overlap < original_y ->
  grid_coords target_x target_y original_x original_y overlap fuel
    = Some coords ->
  Forall (meets_canvas target_x target_y original_x original_y) coords.
Proof.
  intros Htx Hty Ho Hox Hoy H.
  destruct (grid_coords_lists _ _ _ _ _ Hox Hoy _ _ H)
    as (dys & uys & rxs & lxs & -> & Hd & Hu & Hr & Hl & _).
  pose proof (Z.quot_rem' target_x 2). pose proof (Z.rem_bound_pos target_x 2).
  pose proof (Z.quot_rem' target_y 2). pose proof (Z.rem_bound_pos target_y 2).
  pose proof (Z.quot_rem' original_x 2).
  pose proof (Z.rem_bound_pos original_x 2).
  pose proof (Z.quot_rem' original_y 2).
  pose proof (Z.rem_bound_pos original_y 2).
  unfold int_half in *.
  repeat (apply Forall_app; split); try apply Forall_rev;
    try (eapply Forall_impl; [eassumption|]);
    try (constructor; [|constructor]);
    unfold meets_canvas; simpl; intros; lia.
Qed.

Lemma grid_coords_tiles_meet_canvas_witness :
  Forall (meets_canvas 1024 1024 512 512)
    [(704, 704); (-192, 704); (256, 704); (704, -192); (-192, -192);
     (256, -192); (704, 256); (-192, 256); (256, 256)].
Proof.
  apply (grid_coords_tiles_meet_canvas 1024 1024 512 512 64 1);
    try lia; reflexivity.
Defined.

Lemma NoDup_rev_coord (l : list coord) : NoDup l -> NoDup (rev l).
Proof.
  induction 1 as [|a l Hnotin Hl IH]; simpl; [constructor|].
  apply NoDup_app. split; [exact IH|]. split; [|apply NoDup_singleton].
  intros c Hc Hc'. apply list_elem_of_singleton in Hc'. subst c.
  apply Hnotin. apply list_elem_of_In, in_rev, list_elem_of_In, Hc.
Qed.

Lemma disjoint_by (P Q : coord -> Prop) (l k : list coord) :
  Forall P l -> Forall Q k -> (forall c, P c -> Q c -> False) ->
  forall c, c ∈ l -> c ∉ k.
Proof.
  rewrite !Forall_forall. intros Hl Hk HPQ c Hc Hc'. eauto.
Qed.

(** [grid_coords] places no tile twice. *)
Theorem grid_coords_NoDup
    (target_x target_y original_x original_y overlap : Z) fuel coords :
  overlap < original_x -> overlap < original_y ->
  grid_coords target_x target_y original_x original_y overlap fuel
    = Some coords ->
  NoDup coords.
Proof.
  intros Hox Hoy H.
  destruct (grid_coords_lists _ _ _ _ _ Hox Hoy _ _ H)
    as (dys & uys & rxs & lxs & -> & Hd & Hu & Hr & Hl & Nd & Nu & Nr & Nl).
  set (x := int_half target_x - int_half original_x) in *.
  set (y := int_half target_y - int_half original_y) in *.
  apply Forall_rev in Hd, Hu, Hr, Hl.
  apply NoDup_app. split; [now apply NoDup_rev_coord|]. split.
  { apply (disjoint_by _ (fun c => snd c <= y) _ _ Hd).
    - repeat (apply Forall_app; split);
        try (eapply Forall_impl; [eassumption|]; simpl; intros; lia).
      constructor; [simpl; lia | constructor].
    - simpl. intros; lia. }
  apply NoDup_app. split; [now apply NoDup_rev_coord|]. split.
  { apply (disjoint_by _ (fun c => snd c = y) _ _ Hu).
    - repeat (apply Forall_app; split);
        try (eapply Forall_impl; [eassumption|]; simpl; intros; lia).
      constructor; [reflexivity | constructor].
    - simpl. intros; lia. }
  apply NoDup_app. split; [now apply NoDup_rev_coord|]. split.
  { apply (disjoint_by _ (fun c => fst c <= x) _ _ Hr).
    - repeat (apply Forall_app; split);
        try (eapply Forall_impl; [eassumption|]; simpl; intros; lia).
      constructor; [simpl; lia | constructor].
    - simpl. intros; lia. }
  apply NoDup_app. split; [now apply NoDup_rev_coord|]. split.
  { apply (disjoint_by _ (fun c => fst c = x) _ _ Hl).
    - constructor; [reflexivity | constructor].
    - simpl. intros; lia. }
  apply NoDup_singleton.
Qed.

Lemma grid_coords_NoDup_witness :
  NoDup [(704, 704); (-192, 704); (256, 704); (704, -192); (-192, -192);
         (256, -192); (704, 256); (-192, 256); (256, 256)].
Proof.
  apply (grid_coords_NoDup 1024 1024 512 512 64 1); try lia; reflexivity.
Defined.

(** ** Checkpoints and the automatic clamp *)

(** With a count of saves other than -1 and a run of at least one step
    there is a checkpoint distance, it is 1 at least, and the test of a
    step against it never divides by zero; the count -1 ends the set-up
    in ZeroDivisionError. *)
Theorem steps_per_checkpoint_positive (steps skip_steps n : Z) :
  steps_per_checkpoint steps skip_steps (SaveCount (-1))
    = Raise ZeroDivisionError /\
  (n <> -1 -> 0 <= steps ->
   exists spc,
     steps_per_checkpoint steps skip_steps (SaveCount n) = Ok (Some spc) /\
     1 <= spc /\
     forall actual_run_steps,
       intermediate_step (Some spc) [] actual_run_steps
       = Ok ((actual_run_steps mod spc =? 0) && (actual_run_steps >? 0))).
Proof.
  split; [reflexivity|]. intros Hn Hs.
  unfold steps_per_checkpoint, py_floordiv.
  destruct (Z.eqb_spec n 0) as [->|Hn0]; simpl.
  - exists (steps + 10). split; [reflexivity|]. split; [lia|].
    intros a. unfold intermediate_step, py_mod.
    destruct (Z.eqb_spec (steps + 10) 0); [lia | reflexivity].
  - destruct (Z.eqb_spec (n + 1) 0); [lia|]. simpl.
    eexists. split; [reflexivity|].
    set (q := (steps - skip_steps - 1) / (n + 1)).
    assert (Hq : 1 <= (if q >? 0 then q else 1)).
    { rewrite Z.gtb_ltb. destruct (Z.ltb_spec 0 q); lia. }
    split; [exact Hq|]. intros a. unfold intermediate_step, py_mod.
    destruct (Z.eqb_spec (if q >? 0 then q else 1) 0); [lia | reflexivity].
Qed.

Lemma steps_per_checkpoint_positive_witness :
  exists spc,
    steps_per_checkpoint 250 0 (SaveCount 4) = Ok (Some spc) /\ 1 <= spc.
Proof.
  destruct (proj2 (steps_per_checkpoint_positive 250 0 4))
    as (spc & H1 & H2 & _); [lia | lia |].
  exists spc. split; assumption.
Defined.

(** Without a count of saves (0) no step of the run is an intermediate
    one: the distance is set past the last step. *)
Theorem no_saves_no_intermediate_step (steps skip_steps actual_run_steps : Z) :
  0 < actual_run_steps <= steps ->
  exists spc,
    steps_per_checkpoint steps skip_steps (SaveCount 0) = Ok (Some spc) /\
    intermediate_step (Some spc) [] actual_run_steps = Ok false.
Proof.
  intros Ha. exists (steps + 10). split; [reflexivity|].
  unfold intermediate_step, py_mod.
  destruct (Z.eqb_spec (steps + 10) 0); [lia|]. simpl.
  rewrite Z.mod_small by lia.
  destruct (Z.eqb_spec actual_run_steps 0); [lia | reflexivity].
Qed.

Lemma no_saves_no_intermediate_step_witness :
  exists spc,
    steps_per_checkpoint 250 0 (SaveCount 0) = Ok (Some spc) /\
    intermediate_step (Some spc) [] 125 = Ok false.
Proof. apply (no_saves_no_intermediate_step 250 0 125). lia. Defined.

(** A count of [n] saves gives [n + 1] intermediate steps at least
    between [skip_steps] and [steps]: the distance is the floor of
    [(steps - skip_steps - 1) / (n + 1)], and that many multiples of it
    fit. *)
Theorem count_saves_one_more (steps skip_steps n j : Z) :
  0 < n -> 0 <= skip_steps -> n + 1 <= steps - skip_steps - 1 ->
  1 <= j <= n + 1 ->
  exists spc,
    steps_per_checkpoint steps skip_steps (SaveCount n) = Ok (Some spc) /\
    let actual_run_steps := (skip_steps / spc + j) * spc in
    skip_steps < actual_run_steps <= steps /\
    intermediate_step (Some spc) [] actual_run_steps = Ok true.
Proof.
  intros Hn Hk Hlen Hj.
  unfold steps_per_checkpoint, py_floordiv.
  destruct (Z.eqb_spec n 0); [lia|]. destruct (Z.eqb_spec (n + 1) 0); [lia|].
  simpl. eexists. split; [reflexivity|].
  set (q := (steps - skip_steps - 1) / (n + 1)).
  assert (Hq1 : 1 <= q) by (apply Z.div_le_lower_bound; lia).
  assert (Hq2 : (n + 1) * q <= steps - skip_steps - 1)
    by (apply Z.mul_div_le; lia).
  rewrite Z.gtb_ltb. destruct (Z.ltb_spec 0 q) as [_|?]; [|lia].
  pose proof (Z.mul_div_le skip_steps q ltac:(lia)) as Hlo.
  pose proof (Z.mul_succ_div_gt skip_steps q ltac:(lia)) as Hhi.
  assert (Hdiv : 0 <= skip_steps / q) by (apply Z.div_pos; lia).
  simpl. split; [nia|].
  unfold intermediate_step, py_mod.
  destruct (Z.eqb_spec q 0); [lia|]. simpl.
  rewrite Z.mod_mul by lia. simpl.
  rewrite Z.gtb_ltb. destruct (Z.ltb_spec 0 ((skip_steps / q + j) * q));
    [reflexivity | nia].
Qed.

Lemma count_saves_one_more_witness :
  exists spc,
    steps_per_checkpoint 250 0 (SaveCount 4) = Ok (Some spc) /\
    intermediate_step (Some spc) [] ((0 / spc + 5) * spc) = Ok true.
Proof.
  destruct (count_saves_one_more 250 0 4 5) as (spc & H1 & _ & H2); try lia.
  exists spc. split; assumption.
Defined.


Lemma num_to_schedule_constant (c : Py.num) :
  unbound_name c = false ->
  num_to_schedule c no_final ≫= eval_schedule = Ok (repeat c 1000).
Proof.
  intros Hc. unfold num_to_schedule.
  change (Py.neb no_final no_final) with false. cbn [mbind res_bind].
  cbn [eval_schedule eval_terms]. unfold eval_term. cbn [fst snd].
  rewrite Hc. cbn [mbind res_bind]. now rewrite app_nil_r.
Qed.

(** The automatic clamp never shrinks as the steps grow, stays between
    0.001 and 0.1 with the secondary model and between 0.002 and 0.2
    without, and its schedule is that value a thousand times. *)
Theorem auto_clamp_max_monotone (steps1 steps2 : Z) (secondary : bool) :
  steps1 <= steps2 ->
  exists c1 c2,
    auto_clamp_max steps1 secondary = Ok c1 /\
    auto_clamp_max steps2 secondary = Ok c2 /\
    Py.geb c2 c1 = true /\
    Py.geb c1 (Py.Float (Py.literal (if secondary then 1 else 2) 1000)) = true /\
    Py.geb (Py.Float (Py.literal (if secondary then 1 else 2) 10)) c2 = true /\
    num_to_schedule c1 no_final ≫= eval_schedule = Ok (repeat c1 1000).
Proof.
  intros H. unfold auto_clamp_max.
  repeat match goal with
         | |- context [?a <=? ?b] => destruct (Z.leb_spec a b)
         end; try lia; destruct secondary;
    (eexists _, _; split; [reflexivity|]; split; [reflexivity|];
     split; [vm_compute; reflexivity|]; split; [vm_compute; reflexivity|];
     split; [vm_compute; reflexivity
            | apply num_to_schedule_constant; vm_compute; reflexivity]).
Qed.

Lemma auto_clamp_max_monotone_witness :
  exists c1 c2,
    auto_clamp_max 50 true = Ok c1 /\ auto_clamp_max 250 true = Ok c2 /\
    Py.geb c2 c1 = true.
Proof.
  destruct (auto_clamp_max_monotone 50 250 true) as (c1 & c2 & H1 & H2 & H3 & _);
    [lia|].
  exists c1, c2. repeat split; assumption.
Defined.

(** ** Instances *)

(** Without an overlap a tile can fall off the canvas: on a canvas of
    1536 x 512 the tiles of 512 x 512 fit exactly and the loops, which
    run while a tile ends at the edge or before it, add a column at 1536
    and a row at 512. *)
Example grid_coords_overlap_0_off_canvas :
  exists coords,
    grid_coords 1536 512 512 512 0 10 = Some coords /\
    In (1536, 0) coords /\ ~ meets_canvas 1536 512 512 512 (1536, 0).
Proof.
  eexists. split; [vm_compute; reflexivity|]. split.
  - simpl. tauto.
  - unfold meets_canvas. simpl. lia.
Qed.

Lemma split_prompts_fills_frames_witness :
  is_Some (split_prompts Z 0 5 [(3, 20); (1, 10)] !! 4).
Proof. apply (split_prompts_fills_frames 0 5 [(3, 20); (1, 10)] 4). lia. Defined.

Lemma split_prompts_latest_witness :
  split_prompts Z 0 5 [(0, 10); (3, 20)] !! 2 = Some 10 /\
  split_prompts Z 0 5 [(0, 10); (3, 20)] !! 4 = Some 20 /\
  split_prompts Z 0 5 [(0, 10); (3, 20)] !! 6 = None.
Proof.
  assert (Hinc : increasing_from Z (-1) [(0, 10); (3, 20)]) by (simpl; lia).
  split; [|split].
  - exact (split_prompts_latest 0 5 [(0, 10); (3, 20)] 2 Hinc).
  - exact (split_prompts_latest 0 5 [(0, 10); (3, 20)] 4 Hinc).
  - exact (split_prompts_latest 0 5 [(0, 10); (3, 20)] 6 Hinc).
Defined.

Lemma frame_prompt_of_split_witness :
  frame_prompt Z 0 (Some (split_prompts Z 0 5 [(0, 10); (3, 20)])) 4
    = Found Z 20 /\
  frame_prompt Z 0 (Some (split_prompts Z 0 5 [(0, 10); (3, 20)])) 6
    = KeyError Z (-1).
Proof.
  assert (Hinc : increasing_from Z (-1) [(0, 10); (3, 20)]) by (simpl; lia).
  split.
  - exact (frame_prompt_of_split 0 5 [(0, 10); (3, 20)] 4 Hinc ltac:(lia)).
  - exact (frame_prompt_of_split 0 5 [(0, 10); (3, 20)] 6 Hinc ltac:(lia)).
Defined.

Lemma smooth_jazz_same_frame_witness :
  exists s',
    smooth_jazz (repeat (Py.Int 4) 38 ++ repeat (Py.Int 2) 2) = Ok s' /\
    length s' = 40%nat /\ s' !! 0%nat = Some (Py.Int 4).
Proof.
  destruct (smooth_jazz (repeat (Py.Int 4) 38 ++ repeat (Py.Int 2) 2))
    as [s'|e] eqn:E.
  - exists s'. split; [reflexivity|].
    exact (smooth_jazz_same_frame _ s' E).
  - exfalso. vm_compute in E. discriminate.
Defined.

Lemma correct_step_zero_interval_witness :
  correct_step Z Z (fun img _ => img) (fun img _ => img) (fun img => img)
    {| steps := 250; adjustment_interval := 0;
       fix_brightness_contrast := false;
       high_brightness_adjust := true; high_brightness_start := 0;
       high_brightness_threshold := Py.Int 180;
       high_brightness_adjust_amount := Py.Int 1;
       low_brightness_adjust := true; low_brightness_start := 0;
       low_brightness_threshold := Py.Int 40;
       low_brightness_adjust_amount := Py.Int 1;
       high_contrast_adjust := true; high_contrast_start := 0;
       high_contrast_threshold := Py.Int 80;
       high_contrast_adjust_amount := Py.Int 1;
       low_contrast_adjust := true; low_contrast_start := 0;
       low_contrast_threshold := Py.Int 20;
       low_contrast_adjust_amount := Py.Int 1 |}
    7 (Py.Int 100) (Py.Int 50) 0 0 = Raise ZeroDivisionError.
Proof. apply correct_step_zero_interval. reflexivity. Defined.

Lemma thirty_percent_exact_witness :
  exists limit,
    Py.mul (Py.Int 250) (Py.Float (Py.literal 3 10)) = Ok limit /\
    (Py.ltb (Py.Int 75) limit = true <-> 10 * 75 < 3 * 250).
Proof. apply (thirty_percent_exact 250 75). lia. Defined.
